(** * The preimage oracle host: key-value store, prefetcher and HTTP handlers

    A shallow embedding of the Go sources

    - [kvstore/local_source.go]   ([LocalPreimageSource]),
    - [host/host.go]              ([PreimageServer], [httpServer]),
    - [prefetcher/prefetcher.go]  ([Prefetcher], [parseHint], [prefetch]),
    - [host/config/config.go]     ([Config], [Check], [NewConfig]),
    - [plasma/daclient.go]        ([DAClient], [GetInput], [SetInput]),

    followed by the properties of the written specification that concern
    them and by further properties of the code.  Byte slices are
    [list Byte.byte], Go strings are [string], the key-value store is an
    interface ([KV]) with the in-memory variant as an instance over [gmap],
    and Go's [(value, error)] returns are sums. *)

From Stdlib Require Import NArith ZArith Lia Ascii String List Bool.
From stdpp Require Import base gmap list strings countable.

Local Open Scope string_scope.
Local Open Scope list_scope.
Local Open Scope N_scope.

(** ** Bytes *)

Module Bytes.

Abbreviation byte := Byte.byte.
Abbreviation bytes := (list Byte.byte).

#[export] Instance byte_eq_dec : EqDecision byte.
Proof. intros x y. destruct (Byte.byte_eq_dec x y); [left | right]; assumption. Defined.

#[export] Instance byte_countable : Countable byte :=
  inj_countable Byte.to_N Byte.of_N Byte.of_to_N.

(** Go's conversion [byte(v)] of an unsigned integer: the low eight bits. *)
Definition byte_of_N (v : N) : byte :=
  match Byte.of_N (v mod 256) with
  | Some b => b
  | None => Byte.x00
  end.

(** [make([]byte, n)] *)
Definition make (n : nat) : bytes := repeat Byte.x00 n.

(** The slice expression [b[lo:hi]] on a buffer that is long enough. *)
Definition slice (lo hi : nat) (b : bytes) : bytes := firstn (hi - lo) (skipn lo b).

(** [copy(dst, src)]: overwrite the first [min(len(dst), len(src))] bytes. *)
Definition copy (dst src : bytes) : bytes :=
  let n := Nat.min (length dst) (length src) in
  firstn n src ++ skipn n dst.

(** [copy(b[lo:hi], src)] seen from the whole buffer [b]. *)
Definition copy_at (lo hi : nat) (b src : bytes) : bytes :=
  firstn lo b ++ copy (slice lo hi b) src ++ skipn hi b.

(** [binary.BigEndian.PutUint64(b, v)] as the eight bytes it writes. *)
Definition u64_be (v : N) : bytes :=
  [ byte_of_N (N.shiftr v 56); byte_of_N (N.shiftr v 48);
    byte_of_N (N.shiftr v 40); byte_of_N (N.shiftr v 32);
    byte_of_N (N.shiftr v 24); byte_of_N (N.shiftr v 16);
    byte_of_N (N.shiftr v 8);  byte_of_N v ].

(** [binary.BigEndian.PutUint64(b[off:], v)] seen from the whole buffer. *)
Definition PutUint64_at (off : nat) (b : bytes) (v : N) : bytes :=
  firstn off b ++ u64_be v ++ skipn (off + 8) b.

(** [binary.BigEndian.Uint64(b)] on a slice of at least eight bytes. *)
Definition Uint64 (b : bytes) : N :=
  fold_left (fun acc x => acc * 256 + Byte.to_N x) (firstn 8 b) 0.

(** [[]byte(s)] *)
Definition of_string (s : string) : bytes := list_byte_of_string s.

End Bytes.
Import Bytes.

(** ** Errors

    Go error values.  [errors.Is] follows the chain built by the [%w] verb
    of [fmt.Errorf]; an error made without it ends the chain. *)

#[warnings="-register-all"]
Inductive error : Type :=
| ErrNotFound                                     (* kvstore.ErrNotFound *)
| ErrorNew (msg : string)                         (* errors.New, library errors *)
| Errorf (format : string) (wrapped : option error). (* fmt.Errorf, operand of %w *)

Fixpoint errors_Is_ErrNotFound (e : error) : bool :=
  match e with
  | ErrNotFound => true
  | ErrorNew _ => false
  | Errorf _ (Some e') => errors_Is_ErrNotFound e'
  | Errorf _ None => false
  end.

Inductive result (A : Type) : Type :=
| Ok (a : A)
| Err (e : error).
Arguments Ok {A} a.
Arguments Err {A} e.

(** ** Strings and hexadecimal decoding (Go's [strings], [encoding/hex],
    go-ethereum's [hexutil]) *)

Module Strings.

(** [strings.Index(s, substr)] *)
Fixpoint Index (s substr : string) : option nat :=
  if String.prefix substr s then Some 0%nat
  else match s with
       | EmptyString => None
       | String _ rest => option_map S (Index rest substr)
       end.

(** [strings.Contains(s, substr)] *)
Definition Contains (s substr : string) : bool :=
  match Index s substr with Some _ => true | None => false end.

(** [strings.Cut(s, sep)]: before, after, found. *)
Definition Cut (s sep : string) : string * string * bool :=
  match Index s sep with
  | Some i =>
      (String.substring 0 i s,
       String.substring (i + String.length sep) (String.length s - (i + String.length sep)) s,
       true)
  | None => (s, "", false)
  end.

(** The path suffix [path[n:]]. *)
Definition drop (n : nat) (s : string) : string :=
  String.substring n (String.length s - n) s.

End Strings.

Module Hex.

(** [reverseHexTable]: the value of a hexadecimal digit, in either case. *)
Definition fromHexChar (c : ascii) : option N :=
  let n := N_of_ascii c in
  if (48 <=? n) && (n <=? 57) then Some (n - 48)
  else if (97 <=? n) && (n <=? 102) then Some (n - 97 + 10)
  else if (65 <=? n) && (n <=? 70) then Some (n - 65 + 10)
  else None.

(** [hex.DecodeString]: the bytes decoded before the first problem, and
    the error ([InvalidByteError] or [ErrLength]) if there was one. *)
Fixpoint DecodeString (s : string) : bytes * option error :=
  match s with
  | EmptyString => ([], None)
  | String p EmptyString =>
      match fromHexChar p with
      | None => ([], Some (ErrorNew "encoding/hex: invalid byte"))
      | Some _ => ([], Some (ErrorNew "encoding/hex: odd length hex string"))
      end
  | String p (String q rest) =>
      match fromHexChar p, fromHexChar q with
      | Some a, Some b =>
          let '(out, err) := DecodeString rest in
          (byte_of_N (N.lor (N.shiftl a 4) b) :: out, err)
      | _, _ => ([], Some (ErrorNew "encoding/hex: invalid byte"))
      end
  end.

Definition has0xPrefix (input : string) : bool :=
  match input with
  | String c0 (String c1 _) =>
      Ascii.eqb c0 "0" && (Ascii.eqb c1 "x" || Ascii.eqb c1 "X")
  | _ => false
  end.

(** [hexutil.Decode]: a [0x]-prefixed hexadecimal string. *)
Definition Decode (input : string) : result bytes :=
  if String.eqb input "" then Err (ErrorNew "empty hex string")
  else if negb (has0xPrefix input) then Err (ErrorNew "hex string without 0x prefix")
  else match DecodeString (Strings.drop 2 input) with
       | (b, None) => Ok b
       | (_, Some e) => Err e
       end.

End Hex.

(** ** Preimage keys (package [op-preimage]) *)

Module Preimage.

(** [common.Hash], a [[32]byte] array; every value of this type that the
    program holds has length 32. *)
Abbreviation Hash := (list Byte.byte).

(** Modelled from the spec: the key-type tags of package [op-preimage],
    whose source is not part of the sources at hand; the numbers are those
    of the table of storage-key tags in the data model. *)
Inductive KeyType := LocalKeyType | Keccak256KeyType | Sha256KeyType | BlobKeyType | KZGPointEvaluationKeyType.

Definition tag (t : KeyType) : byte :=
  match t with
  | LocalKeyType => Byte.x01
  | Keccak256KeyType => Byte.x02
  | Sha256KeyType => Byte.x03
  | BlobKeyType => Byte.x04
  | KZGPointEvaluationKeyType => Byte.x06
  end.

(** [out = k; out[0] = byte(t)]: the [PreimageKey] method of
    [Keccak256Key], [Sha256Key], [BlobKey] and [KZGPointEvaluationKey]. *)
Definition PreimageKey (t : KeyType) (k : Hash) : Hash := tag t :: skipn 1 k.

(** Modelled from the spec: [LocalIndexKey(i).PreimageKey()], the local tag
    followed by the index in big-endian order. *)
Definition LocalIndexKey (i : N) : Hash :=
  PreimageKey LocalKeyType (PutUint64_at 24 (make 32) i).

(** [key[0]], the tag of a storage key. *)
Definition key_tag (k : Hash) : option byte := head k.

End Preimage.
Import Preimage.

(** ** The key-value store (package [kvstore]) *)

(** The interface [kvstore.KV]. *)
Class KV (S : Type) := {
  kvGet : S -> Hash -> result bytes;
  kvPut : S -> Hash -> bytes -> S * option error
}.

(** Modelled from the spec: the in-memory variant of the store, a mapping
    from storage key to an owned byte buffer; [get] of an absent key is
    [ErrNotFound], [put] stores a copy of the value and does not fail. *)
Abbreviation MemKV :=
  (@gmap (list Byte.byte) (@list.list_eq_dec Byte.byte byte_eq_dec)
     (@list_countable Byte.byte byte_eq_dec byte_countable) (list Byte.byte)).

#[export] Instance MemKV_KV : KV MemKV := {
  kvGet m k := match m !! k with Some v => Ok v | None => Err ErrNotFound end;
  kvPut m k v := (<[k := v]> m, None)
}.

(** [kvstore/local_source.go] *)
Module LocalSource.

(** The part of [config.Config] that the local source reads. *)
Record Config := { L1Head : Hash; L1Head_len : length L1Head = 32%nat }.

Record LocalPreimageSource := NewLocalPreimageSource { config : Config }.

(** Modelled from the spec: [client.L1HeadLocalIndex], local index 1. *)
Definition L1HeadLocalIndex : N := 1.

Definition l1HeadKey : Hash := LocalIndexKey L1HeadLocalIndex.

Definition Get (s : LocalPreimageSource) (key : Hash) : result bytes :=
  if decide (key = l1HeadKey) then Ok (L1Head (config s))
  else Err ErrNotFound.

End LocalSource.

(** ** Hints (package [op-program/client/l1]) *)

(** Modelled from the spec: the five hint-type constants of package [l1]. *)
Definition HintL1BlockHeader : string := "l1-block-header".
Definition HintL1Transactions : string := "l1-transactions".
Definition HintL1Receipts : string := "l1-receipts".
Definition HintL1Blob : string := "l1-blob".
Definition HintL1KZGPointEvaluation : string := "l1-kzg-point-evaluation".

(** ** Upstream sources (interfaces of [prefetcher.go] and package [eth]) *)

Record IndexedBlobHash := { ibh_Index : N; ibh_Hash : Hash }.

(** [eth.BlobSidecar]: a blob of 131072 bytes with its 48-byte commitment. *)
Record BlobSidecar := { Blob : bytes; KZGCommitment : bytes }.

(** [L1Source] *)
Record L1Source (BlockInfo Transactions Receipts : Type) := {
  InfoByHash : Hash -> result BlockInfo;
  InfoAndTxsByHash : Hash -> result (BlockInfo * Transactions);
  FetchReceipts : Hash -> result (BlockInfo * Receipts)
}.
Arguments InfoByHash {_ _ _} _ _.
Arguments InfoAndTxsByHash {_ _ _} _ _.
Arguments FetchReceipts {_ _ _} _ _.

(** [L1BlobSource]; the block reference is used for its [Time] only. *)
Record L1BlobSource := {
  GetBlobSidecars : N -> list IndexedBlobHash -> result (list BlobSidecar)
}.

(** What the prefetcher is linked against: the types of block data, the
    library functions that serialise and hash it, the point-evaluation
    precompile, and the two sources held in the fields [l1Fetcher] and
    [l1BlobFetcher]. *)
Record Env : Type := {
  BlockInfo : Type;
  Transactions : Type;
  Receipts : Type;
  HeaderRLP : BlockInfo -> result bytes;                      (* eth.BlockInfo.HeaderRLP *)
  EncodeTransactions : Transactions -> result (list bytes);   (* eth.EncodeTransactions *)
  EncodeReceipts : Receipts -> result (list bytes);           (* eth.EncodeReceipts *)
  WriteTrie : list bytes -> Hash * list bytes;                (* mpt.WriteTrie: root, nodes *)
  Keccak256Hash : bytes -> Hash;                              (* crypto.Keccak256Hash *)
  (* vm.PrecompiledContractsCancun[0x0a].Run *)
  KZGPointEvaluation_Run : bytes -> result bytes;
  l1Fetcher : L1Source BlockInfo Transactions Receipts;
  l1BlobFetcher : L1BlobSource
}.

(** [params.BlobTxFieldElementsPerBlob] *)
Definition BlobTxFieldElementsPerBlob : nat := 4096.

(** ** A state-and-error monad for code that writes to the store

    A computation takes the store and returns the store it leaves behind,
    together with its value or the error it returned.  Writes made before an
    error stay in the store, as they do in the Go code. *)

Definition M (S A : Type) : Type := S -> S * result A.

Definition ret {S A} (a : A) : M S A := fun s => (s, Ok a).
Definition fail {S A} (e : error) : M S A := fun s => (s, Err e).
Definition bind {S A B} (m : M S A) (k : A -> M S B) : M S B :=
  fun s => match m s with
           | (s', Ok a) => k a s'
           | (s', Err e) => (s', Err e)
           end.

Declare Scope kv_scope.
Delimit Scope kv_scope with kv.
Notation "x <- m ;; k" := (bind m (fun x => k))
  (at level 100, m at next level, right associativity) : kv_scope.
Notation "m ;;; k" := (bind m (fun _ => k))
  (at level 100, right associativity) : kv_scope.

(** [p.kvStore.Put(k, v)] *)
Definition Put {S} `{KV S} (k : Hash) (v : bytes) : M S unit :=
  fun s => match kvPut s k v with
           | (s', None) => (s', Ok tt)
           | (s', Some e) => (s', Err e)
           end.

(** [if err := m; err != nil { return fmt.Errorf(format, err) }] *)
Definition wrapping {S A} (format : string) (m : M S A) : M S A :=
  fun s => match m s with
           | (s', Ok a) => (s', Ok a)
           | (s', Err e) => (s', Err (Errorf format (Some e)))
           end.

(** ** The prefetcher ([prefetcher/prefetcher.go]) *)

Section Prefetcher.

Context {S : Type} `{KV S}.

Variable env : Env.

Definition kzgPointEvaluationSuccess : bytes := [Byte.x01].
Definition kzgPointEvaluationFailure : bytes := [Byte.x00].

(** The mutable part of the [Prefetcher] struct. *)
Record Prefetcher := { lastHint : string; kvStore : S }.

Definition Hint (p : Prefetcher) (hint : string) : Prefetcher * option error :=
  ({| lastHint := hint; kvStore := kvStore p |}, None).

(** [parseHint] *)
Definition parseHint (hint : string) : result (string * bytes) :=
  let '(hintType, bytesStr, found) := Strings.Cut hint " " in
  if negb found then Err (Errorf "unsupported hint: %s" None)
  else match Hex.Decode bytesStr with
       | Err _ => Err (Errorf "invalid bytes: %s" None)
       | Ok hintBytes => Ok (hintType, hintBytes)
       end.

(** [storeTrieNodes]: the loop over the nodes. *)
Fixpoint storeNodes (nodes : list bytes) : M S unit :=
  match nodes with
  | [] => ret tt
  | node :: rest =>
      let key := PreimageKey Keccak256KeyType (Keccak256Hash env node) in
      (wrapping "failed to store node: %w" (Put key node) ;;;
       storeNodes rest)%kv
  end.

Definition storeTrieNodes (values : list bytes) : M S unit :=
  let '(_, nodes) := WriteTrie env values in
  storeNodes nodes.

Definition storeReceipts (receipts : Receipts env) : M S unit :=
  match EncodeReceipts env receipts with
  | Err err => fail err
  | Ok opaqueReceipts => storeTrieNodes opaqueReceipts
  end.

Definition storeTransactions (txs : Transactions env) : M S unit :=
  match EncodeTransactions env txs with
  | Err err => fail err
  | Ok opaqueTxs => storeTrieNodes opaqueTxs
  end.

(** The loop [for i := 0; i < params.BlobTxFieldElementsPerBlob; i++] of
    the blob case, with [n] iterations left, the index at [i], and the
    [blobKey] buffer as the previous iteration left it. *)
Fixpoint storeFieldElements (n : nat) (i : nat) (blobKey : bytes) (sidecar : BlobSidecar)
  : M S unit :=
  match n with
  | O => ret tt
  | Datatypes.S n' =>
      let blobKey := PutUint64_at 72 blobKey (N.of_nat i) in
      let blobKeyHash := Keccak256Hash env blobKey in
      (Put (PreimageKey Keccak256KeyType blobKeyHash) blobKey ;;;
       Put (PreimageKey BlobKeyType blobKeyHash)
           (slice (Nat.shiftl i 5) (Nat.shiftl (i + 1) 5) (Blob sidecar)) ;;;
       storeFieldElements n' (i + 1) blobKey sidecar)%kv
  end.

(** [prefetch] *)
Definition prefetch (hint : string) : M S unit :=
  match parseHint hint with
  | Err err => fail err
  | Ok (hintType, hintBytes) =>
      if String.eqb hintType HintL1BlockHeader then
        if negb (length hintBytes =? 32)%nat then fail (Errorf "invalid L1 block hint: %x" None)
        else
          let hash : Hash := hintBytes in
          match InfoByHash (l1Fetcher env) hash with
          | Err err => fail (Errorf "failed to fetch L1 block %s header: %w" (Some err))
          | Ok header =>
              match HeaderRLP env header with
              | Err err => fail (Errorf "marshall header: %w" (Some err))
              | Ok data => Put (PreimageKey Keccak256KeyType hash) data
              end
          end
      else if String.eqb hintType HintL1Transactions then
        if negb (length hintBytes =? 32)%nat then fail (Errorf "invalid L1 transactions hint: %x" None)
        else
          let hash : Hash := hintBytes in
          match InfoAndTxsByHash (l1Fetcher env) hash with
          | Err err => fail (Errorf "failed to fetch L1 block %s txs: %w" (Some err))
          | Ok (_, txs) => storeTransactions txs
          end
      else if String.eqb hintType HintL1Receipts then
        if negb (length hintBytes =? 32)%nat then fail (Errorf "invalid L1 receipts hint: %x" None)
        else
          let hash : Hash := hintBytes in
          match FetchReceipts (l1Fetcher env) hash with
          | Err err => fail (Errorf "failed to fetch L1 block %s receipts: %w" (Some err))
          | Ok (_, receipts) => storeReceipts receipts
          end
      else if String.eqb hintType HintL1Blob then
        if negb (length hintBytes =? 48)%nat then fail (Errorf "invalid blob hint: %x" None)
        else
          let blobVersionHash : Hash := slice 0 32 hintBytes in
          let blobHashIndex := Uint64 (slice 32 40 hintBytes) in
          let refTimestamp := Uint64 (slice 40 48 hintBytes) in
          let indexedBlobHash := {| ibh_Index := blobHashIndex; ibh_Hash := blobVersionHash |} in
          match GetBlobSidecars (l1BlobFetcher env) refTimestamp [indexedBlobHash] with
          | Err err => fail (Errorf "failed to fetch blob sidecars for %s %d: %w" (Some err))
          | Ok sidecars =>
              match sidecars with
              | [sidecar] =>
                  (Put (PreimageKey Sha256KeyType blobVersionHash) (KZGCommitment sidecar) ;;;
                   let blobKey := copy_at 0 48 (make 80) (KZGCommitment sidecar) in
                   storeFieldElements BlobTxFieldElementsPerBlob 0 blobKey sidecar)%kv
              | _ => fail (Errorf "failed to fetch blob sidecars for %s %d: %w" None)
              end
          end
      else if String.eqb hintType HintL1KZGPointEvaluation then
        let result :=
          match KZGPointEvaluation_Run env hintBytes with
          | Ok _ => kzgPointEvaluationSuccess
          | Err _ => kzgPointEvaluationFailure
          end in
        let inputHash := Keccak256Hash env hintBytes in
        (Put (PreimageKey Keccak256KeyType inputHash) hintBytes ;;;
         Put (PreimageKey KZGPointEvaluationKeyType inputHash) result)%kv
      else fail (Errorf "unknown hint type: %v" None)
  end.

(** What one call of [GetPreimage] hands back: the prefetcher as the call
    left it and the returned pair [(pre, err)]. *)
Definition Returned : Type := Prefetcher * result bytes.

(** The [for] loop of [GetPreimage], entered with the current [(pre, err)].
    [fuel] bounds the number of iterations; [None] means the bound was
    reached with the loop condition still true. *)
Fixpoint GetPreimage_loop (fuel : nat) (p : Prefetcher) (key : Hash) (got : result bytes)
  : option Returned :=
  match got with
  | Ok _ => Some (p, got)
  | Err err =>
      if errors_Is_ErrNotFound err && negb (String.eqb (lastHint p) "") then
        match fuel with
        | O => None
        | Datatypes.S fuel' =>
            let hint := lastHint p in
            match prefetch hint (kvStore p) with
            | (s', Err err) =>
                Some ({| lastHint := lastHint p; kvStore := s' |},
                      Err (Errorf "prefetch failed: %w" (Some err)))
            | (s', Ok _) =>
                let p' := {| lastHint := lastHint p; kvStore := s' |} in
                GetPreimage_loop fuel' p' key (kvGet s' key)
            end
        end
      else Some (p, got)
  end.

(** [GetPreimage] *)
Definition GetPreimage (fuel : nat) (p : Prefetcher) (key : Hash) : option Returned :=
  GetPreimage_loop fuel p key (kvGet (kvStore p) key).

End Prefetcher.

(** ** The HTTP server ([host/host.go]) *)

(** What a handler leaves on the wire: a status line with a body, or
    nothing at all when the handler panics ([net/http] recovers the panic
    and drops the connection). *)
Inductive Outcome : Type :=
| Responded (status : nat) (body : bytes)
| Panicked.

Definition StatusOK : nat := 200.
Definition StatusBadRequest : nat := 400.
Definition StatusNotFound : nat := 404.

Section httpServer.

(** The state behind the two closures handed to [httpServer]. *)
Context {St : Type}.
(** [preimageSource]; [None] when the call does not return within [fuel]. *)
Variable preimageSource : nat -> St -> Hash -> option (St * result bytes).
Variable hintHandler : St -> string -> St * option error.
(** The bytes between the length and the capacity of the slice that
    [hex.DecodeString] returns; they depend on the allocator. *)
Variable spare : string -> bytes.

(** The handler of [/dehash/].  The server mux calls it only with paths
    that start with the pattern, so [path[len(pattern):]] is in range. *)
Definition handleDehash (fuel : nat) (st : St) (path : string) : option (St * Outcome) :=
  let keyStr := Strings.drop (String.length "/dehash/") path in
  match Hex.DecodeString keyStr with
  | (_, Some err) => Some (st, Responded StatusBadRequest [])
  | (key, None) =>
      match key with
      | [] => Some (st, Panicked)            (* key[0] = 2: index out of range *)
      | _ :: rest =>
          let key := Byte.x02 :: rest in     (* key[0] = 2 // keccak256 *)
          (* key[:common.HashLength] needs a capacity of 32 *)
          if (32 <=? length key + length (spare keyStr))%nat then
            match preimageSource fuel st (firstn 32 (key ++ spare keyStr)) with
            | None => None
            | Some (st', Err err) => Some (st', Responded StatusNotFound [])
            | Some (st', Ok val) => Some (st', Responded StatusOK val)
            end
          else Some (st, Panicked)
      end
  end.

(** The handler of [/hint/]. *)
Definition handleHint (st : St) (path : string) : St * Outcome :=
  let hint := Strings.drop (String.length "/hint/") path in
  if negb (Strings.Contains hint HintL1BlockHeader) &&
     negb (Strings.Contains hint HintL1Transactions) &&
     negb (Strings.Contains hint HintL1Receipts) &&
     negb (Strings.Contains hint HintL1Blob) &&
     negb (Strings.Contains hint HintL1KZGPointEvaluation)
  then (st, Responded StatusBadRequest [])
  else match hintHandler st hint with
       | (st', Some err) => (st', Responded StatusBadRequest [])
       | (st', None) => (st', Responded StatusOK (of_string "ok"))
       end.

End httpServer.

Section PreimageServer.

Context {S : Type} `{KV S}.
Variable env : Env.

(** The two closures that [PreimageServer] builds: the prefetcher's
    methods when [cfg.FetchingEnabled()], else the plain store and a hint
    handler that ignores the hint. *)
Definition server_preimageSource (fetchingEnabled : bool)
  : nat -> @Prefetcher S -> Hash -> option (@Prefetcher S * result bytes) :=
  if fetchingEnabled then
    GetPreimage env
  else fun _ p key => Some (p, kvGet (kvStore p) key).

Definition server_hintHandler (fetchingEnabled : bool)
  : @Prefetcher S -> string -> @Prefetcher S * option error :=
  if fetchingEnabled then Hint else fun p _ => (p, None).

End PreimageServer.

(** ** The retry policy and the ways out of the loop

    Definitions used to state what [GetPreimage] does. *)

Section RetryPolicy.

Context {S : Type} `{KV S}.
Variable env : Env.

(** The loop condition of [GetPreimage]:
    [errors.Is(err, kvstore.ErrNotFound) && p.lastHint != ""]. *)
Definition retries (hint : string) (got : result bytes) : bool :=
  match got with
  | Ok _ => false
  | Err err => errors_Is_ErrNotFound err && negb (String.eqb hint "")
  end.

Definition with_store (p : @Prefetcher S) (s : S) : @Prefetcher S :=
  {| lastHint := lastHint p; kvStore := s |}.

(** *** The retry policy, in the words of the specification

    [get_preimage_spec p key r]: starting from [store.get(key)], while the
    result is [ErrNotFound] and a non-empty hint is recorded, prefetch
    under that hint; a failed prefetch ends the call with its error
    wrapped, a successful one is followed by another [store.get(key)];
    the first result that does not ask for a retry is returned. *)
Inductive get_preimage_from : @Prefetcher S -> Hash -> result bytes -> @Returned S -> Prop :=
| gp_return p key got :
    retries (lastHint p) got = false ->
    get_preimage_from p key got (p, got)
| gp_prefetch_failed p key got s' err :
    retries (lastHint p) got = true ->
    prefetch env (lastHint p) (kvStore p) = (s', Err err) ->
    get_preimage_from p key got
      (with_store p s', Err (Errorf "prefetch failed: %w" (Some err)))
| gp_retry p key got s' r :
    retries (lastHint p) got = true ->
    prefetch env (lastHint p) (kvStore p) = (s', Ok tt) ->
    get_preimage_from (with_store p s') key (kvGet s' key) r ->
    get_preimage_from p key got r.

Definition get_preimage_spec (p : @Prefetcher S) (key : Hash) (r : @Returned S) : Prop :=
  get_preimage_from p key (kvGet (kvStore p) key) r.

(** The store after [n] prefetches under [hint] that all succeeded. *)
Fixpoint store_after (n : nat) (hint : string) (s : S) : option S :=
  match n with
  | O => Some s
  | Datatypes.S n' =>
      match prefetch env hint s with
      | (s', Ok _) => store_after n' hint s'
      | (_, Err _) => None
      end
  end.

(** The three ways out of the loop, seen at the store [s]: the read of
    [key] gives something else than [ErrNotFound], no hint is recorded, or
    the prefetch under the hint returns an error. *)
Definition leaves_loop (hint : string) (key : Hash) (s : S) : Prop :=
  (forall err, kvGet s key = Err err -> errors_Is_ErrNotFound err = false) \/
  hint = "" \/
  (exists s' err, prefetch env hint s = (s', Err err)).

End RetryPolicy.

(** ** The in-memory store as a sequence of writes *)

Definition apply_writes (L : list (Hash * bytes)) (m : MemKV) : MemKV :=
  fold_left (fun acc kv => <[kv.1 := kv.2]> acc) L m.

(** [performs c L r]: on the in-memory store, [c] makes the writes [L], in
    that order, and returns [r], from whatever store it starts. *)
Definition performs (c : M MemKV unit) (L : list (Hash * bytes)) (r : result unit) : Prop :=
  forall m, c m = (apply_writes L m, r).

(** ** The writes of a prefetch *)

Section PrefetchWrites.

Variable env : Env.

(** The writes of [storeTrieNodes]: every node under the key of its hash. *)
Definition node_writes (nodes : list bytes) : list (Hash * bytes) :=
  map (fun node => (PreimageKey Keccak256KeyType (Keccak256Hash env node), node)) nodes.

(** The writes of the field-element loop, buffer and all. *)
Fixpoint fieldElement_writes (n i : nat) (blobKey : bytes) (sidecar : BlobSidecar)
  : list (Hash * bytes) :=
  match n with
  | O => []
  | Datatypes.S n' =>
      let blobKey := PutUint64_at 72 blobKey (N.of_nat i) in
      let blobKeyHash := Keccak256Hash env blobKey in
      (PreimageKey Keccak256KeyType blobKeyHash, blobKey) ::
      (PreimageKey BlobKeyType blobKeyHash,
       slice (Nat.shiftl i 5) (Nat.shiftl (i + 1) 5) (Blob sidecar)) ::
      fieldElement_writes n' (i + 1) blobKey sidecar
  end.

(** The 80-byte key of field element [i] of commitment [C], in the words
    of the specification: the commitment, 24 zero bytes, and the index as
    a big-endian 64-bit integer. *)
Definition blobKey_at (C : bytes) (i : nat) : bytes :=
  C ++ make 24 ++ u64_be (N.of_nat i).

(** The two writes for field element [i]. *)
Definition field_element_writes (C B : bytes) (i : nat) : list (Hash * bytes) :=
  let h := Keccak256Hash env (blobKey_at C i) in
  [ (PreimageKey Keccak256KeyType h, blobKey_at C i);
    (PreimageKey BlobKeyType h, slice (i * 32) ((i + 1) * 32) B) ].

(** All writes of a blob prefetch for versioned hash [V]. *)
Definition blob_writes (V C B : bytes) : list (Hash * bytes) :=
  (PreimageKey Sha256KeyType V, C) ::
  flat_map (field_element_writes C B) (seq 0 BlobTxFieldElementsPerBlob).

(** The keys of a blob prefetch: the commitment key and, for each field
    element, its Keccak256 key and its blob key. *)
Definition field_element_keys (C : bytes) (i : nat) : list Hash :=
  let h := Keccak256Hash env (blobKey_at C i) in
  [ PreimageKey Keccak256KeyType h; PreimageKey BlobKeyType h ].

Definition blob_keys (V C : bytes) : list Hash :=
  PreimageKey Sha256KeyType V ::
  flat_map (field_element_keys C) (seq 0 BlobTxFieldElementsPerBlob).

(** No two field elements of the commitment share the last 31 bytes of
    the hash of their keys. *)
Definition field_hashes_distinct (C : bytes) : Prop :=
  forall i j, (i < BlobTxFieldElementsPerBlob)%nat -> (j < BlobTxFieldElementsPerBlob)%nat ->
    skipn 1 (Keccak256Hash env (blobKey_at C i)) = skipn 1 (Keccak256Hash env (blobKey_at C j)) ->
    i = j.

End PrefetchWrites.

(** ** Substrings and the check of the hint handler *)

(** [t] occurs in [s]. *)
Definition is_substring (t s : string) : Prop :=
  exists a b : string, s = (a ++ t ++ b)%string.

Definition hint_types : list string :=
  [HintL1BlockHeader; HintL1Transactions; HintL1Receipts; HintL1Blob; HintL1KZGPointEvaluation].

(** The check that the [/hint/] handler makes before it delegates. *)
Definition mentions_hint_type (hint : string) : bool :=
  existsb (Strings.Contains hint) hint_types.

(** ** A mocked upstream

    Concrete collaborators, used where a statement has to be evaluated: the
    L1 node knows one block, whose header serialises to three bytes; the
    beacon node serves one sidecar for every request; the stand-in for the
    hash keeps the last 32 bytes of its input, which tells the 4096 blob
    keys of one commitment apart; the stand-in for the precompile rejects
    every input. *)

Module Mock.

Definition header : bytes := [Byte.xc0; Byte.x80; Byte.x80].

Definition sidecar : BlobSidecar :=
  {| Blob := make (32 * 4096); KZGCommitment := make 48 |}.

(** The stand-in for the hash: the last 32 bytes of the zero-padded input. *)
Definition lastBytes (b : bytes) : Hash :=
  skipn (length (make 32 ++ b) - 32) (make 32 ++ b).

Definition env : Env :=
  {| BlockInfo := bytes;
     Transactions := list bytes;
     Receipts := list bytes;
     HeaderRLP := fun h => Ok h;
     EncodeTransactions := fun txs => Ok txs;
     EncodeReceipts := fun rs => Ok rs;
     WriteTrie := fun values => (make 32, values);
     Keccak256Hash := lastBytes;
     KZGPointEvaluation_Run := fun _ => Err (ErrorNew "invalid input length");
     l1Fetcher :=
       {| InfoByHash := fun _ => Ok header;
          InfoAndTxsByHash := fun _ => Ok (header, []);
          FetchReceipts := fun _ => Ok (header, []) |};
     l1BlobFetcher := {| GetBlobSidecars := fun _ _ => Ok [sidecar] |} |}.

(** The same, with a beacon node that has no sidecar for the request. *)
Definition envNoSidecar : Env :=
  {| BlockInfo := bytes;
     Transactions := list bytes;
     Receipts := list bytes;
     HeaderRLP := fun h => Ok h;
     EncodeTransactions := fun txs => Ok txs;
     EncodeReceipts := fun rs => Ok rs;
     WriteTrie := fun values => (make 32, values);
     Keccak256Hash := lastBytes;
     KZGPointEvaluation_Run := fun _ => Err (ErrorNew "invalid input length");
     l1Fetcher :=
       {| InfoByHash := fun _ => Ok header;
          InfoAndTxsByHash := fun _ => Ok (header, []);
          FetchReceipts := fun _ => Ok (header, []) |};
     l1BlobFetcher := {| GetBlobSidecars := fun _ _ => Ok [] |} |}.

(** A configuration whose L1 head is 32 bytes of [0xaa]. *)
Definition config : LocalSource.Config :=
  {| LocalSource.L1Head := repeat Byte.xaa 32; LocalSource.L1Head_len := eq_refl |}.

Definition localSource : LocalSource.LocalPreimageSource :=
  LocalSource.NewLocalPreimageSource config.

(** A prefetcher with an empty in-memory store and the given last hint. *)
Definition fresh (hint : string) : @Prefetcher MemKV :=
  {| lastHint := hint; kvStore := ∅ |}.

(** A Keccak256 key that no mocked fetch produces. *)
Definition absentKey : Hash := PreimageKey Keccak256KeyType (repeat Byte.xff 32).

(** A hint for the header of the block with the all-zero hash. *)
Definition headerHint : string :=
  "l1-block-header 0x0000000000000000000000000000000000000000000000000000000000000000".

(** A blob hint: versioned hash, index 0, timestamp 0. *)
Definition blobHint : string :=
  "l1-blob 0x010000000000000000000000000000000000000000000000000000000000000000000000000000000000000000000000".

Definition kzgHint : string := "l1-kzg-point-evaluation 0xdeadbeef".

End Mock.

(** ** Hexadecimal encoding ([encoding/hex], the [%x] verb) *)

Module HexEncoding.

(** [hextable[n]] for a nibble [n]. *)
Definition hexdigit (n : N) : ascii :=
  match String.get (N.to_nat n) "0123456789abcdef" with
  | Some c => c
  | None => "0"%char
  end.

(** [hex.EncodeToString], which is also what [fmt.Sprintf("%x", b)] prints
    for a byte slice: two lower-case digits per byte. *)
Fixpoint EncodeToString (src : bytes) : string :=
  match src with
  | [] => ""
  | v :: rest =>
      String (hexdigit (N.shiftr (Byte.to_N v) 4))
        (String (hexdigit (N.land (Byte.to_N v) 15)) (EncodeToString rest))
  end.

End HexEncoding.

(** ** The configuration ([host/config/config.go]) *)

Module HostConfig.

Definition ErrInvalidL1Head : error := ErrorNew "invalid l1 head".
Definition ErrDataDirRequired : error :=
  ErrorNew "datadir must be specified when in non-fetching mode".
Definition ErrNoExecInServerMode : error :=
  ErrorNew "exec command must not be set when in server mode".

Record Config := {
  DataDir : string;
  L1Head : Hash;
  L1URL : string;
  L1BeaconURL : string;
  L1TrustRPC : bool;
  L1RPCKind : string;
  ExecCmd : string;
  ServerMode : bool;
  IsCustomChainConfig : bool
}.

(** [common.Hash{}], the zero value. *)
Definition zeroHash : Hash := make 32.

Definition FetchingEnabled (c : Config) : bool :=
  negb (String.eqb (L1URL c) "").

Definition Check (c : Config) : option error :=
  if bool_decide (L1Head c = zeroHash) then Some ErrInvalidL1Head
  else if negb (FetchingEnabled c) && String.eqb (DataDir c) "" then Some ErrDataDirRequired
  else if ServerMode c && negb (String.eqb (ExecCmd c) "") then Some ErrNoExecInServerMode
  else None.

(** [NewConfig]; [RPCKindStandard] is the constant of package [sources]. *)
Definition NewConfig (RPCKindStandard : string) (l1Head : Hash) : Config :=
  {| DataDir := ""; L1Head := l1Head; L1URL := ""; L1BeaconURL := "";
     L1TrustRPC := false; L1RPCKind := RPCKindStandard; ExecCmd := "";
     ServerMode := false; IsCustomChainConfig := false |}.

End HostConfig.

(** ** Starting the server ([Main] and [PreimageServer] of [host/host.go]) *)

(** The store that [PreimageServer] creates. *)
Inductive StoreKind : Type :=
| InMemory                    (* kvstore.NewMemKV() *)
| OnDisk (dataDir : string).  (* kvstore.NewDiskKV(cfg.DataDir) *)

(** What [httpServer] is started with: the store behind the two closures
    and whether they are the prefetcher's methods. *)
Record ServerSetup := { setup_store : StoreKind; setup_fetching : bool }.

Section Main.

(** [os.MkdirAll(dir, 0755)] and the connection set-up of [makePrefetcher],
    each with the error it may return. *)
Variable MkdirAll : string -> option error.
Variable makePrefetcher : HostConfig.Config -> option error.

(** [PreimageServer] up to the call of [httpServer]. *)
Definition PreimageServer (cfg : HostConfig.Config) : result ServerSetup :=
  let kv :=
    if String.eqb (HostConfig.DataDir cfg) "" then Ok InMemory
    else match MkdirAll (HostConfig.DataDir cfg) with
         | Some err => Err (Errorf "creating datadir: %w" (Some err))
         | None => Ok (OnDisk (HostConfig.DataDir cfg))
         end in
  match kv with
  | Err err => Err err
  | Ok kv =>
      if HostConfig.FetchingEnabled cfg then
        match makePrefetcher cfg with
        | Some err => Err (Errorf "failed to create prefetcher: %w" (Some err))
        | None => Ok {| setup_store := kv; setup_fetching := true |}
        end
      else Ok {| setup_store := kv; setup_fetching := false |}
  end.

(** [Main] *)
Definition Main (cfg : HostConfig.Config) : result ServerSetup :=
  match HostConfig.Check cfg with
  | Some err => Err (Errorf "invalid config: %w" (Some err))
  | None => PreimageServer cfg
  end.

End Main.

(** ** The DA client ([plasma/daclient.go]) *)

Module Plasma.

(** The sentinel errors of the package. *)
Definition ErrNotFound : error := ErrorNew "not found".
Definition ErrCommitmentMismatch : error := ErrorNew "commitment mismatch".
Definition ErrInvalidInput : error := ErrorNew "invalid input".

Record Request := {
  req_Method : string;
  req_URL : string;
  req_Body : option bytes;
  req_ContentType : option string
}.

(** A response: its status and what [io.ReadAll(resp.Body)] gives. *)
Record Response := { StatusCode : nat; Body : result bytes }.

Record DAClient := NewDAClient { url : string; verify : bool }.

Section Client.

(** [crypto.Keccak256] *)
Variable Keccak256 : bytes -> bytes.
(** [http.NewRequestWithContext] fails on a URL that does not parse. *)
Variable url_parses : string -> bool.
(** [http.DefaultClient.Do] *)
Variable Do : Request -> result Response.

Definition NewRequest (method url : string) (body : option bytes) : result Request :=
  if url_parses url
  then Ok {| req_Method := method; req_URL := url; req_Body := body; req_ContentType := None |}
  else Err (ErrorNew "parse url").

(** [GetInput] *)
Definition GetInput (c : DAClient) (key : bytes) : result bytes :=
  match NewRequest "GET" (url c ++ "/get/0x" ++ HexEncoding.EncodeToString key)%string None with
  | Err err => Err (Errorf "failed to create HTTP request: %w" (Some err))
  | Ok req =>
      match Do req with
      | Err err => Err err
      | Ok resp =>
          if (StatusCode resp =? StatusNotFound)%nat then Err ErrNotFound
          else match Body resp with
               | Err err => Err err
               | Ok input =>
                   if verify c then
                     let exp := Keccak256 input in
                     if negb (bool_decide (exp = key)) then Err ErrCommitmentMismatch
                     else Ok input
                   else Ok input
               end
      end
  end.

(** [SetInput] *)
Definition SetInput (c : DAClient) (img : bytes) : result bytes :=
  if (length img =? 0)%nat then Err ErrInvalidInput
  else
    let key := Keccak256 img in
    let url := (url c ++ "/put/0x" ++ HexEncoding.EncodeToString key)%string in
    match NewRequest "POST" url (Some img) with
    | Err err => Err (Errorf "failed to create HTTP request: %w" (Some err))
    | Ok req =>
        let req := {| req_Method := req_Method req; req_URL := req_URL req;
                      req_Body := req_Body req;
                      req_ContentType := Some "application/octet-stream" |} in
        match Do req with
        | Err err => Err err
        | Ok resp =>
            if negb (StatusCode resp =? StatusOK)%nat
            then Err (Errorf "failed to store preimage: %v" None)
            else Ok key
        end
    end.

End Client.

End Plasma.

(** ** The contract of a store

    What the prefetcher and the server loop rely on: a [Put] succeeds, a
    [Get] after it sees the value, and other keys are left alone. *)

Record kv_lawful (S : Type) `{KV S} : Prop := {
  kvPut_ok : forall (s : S) k v, (kvPut s k v).2 = None;
  kvGet_put_eq : forall (s : S) k v, kvGet (kvPut s k v).1 k = Ok v;
  kvGet_put_ne : forall (s : S) k k' v, k' <> k -> kvGet (kvPut s k v).1 k' = kvGet s k'
}.

(** The store after a sequence of writes, through the interface. *)
Definition apply_puts {S : Type} `{KV S} (L : list (Hash * bytes)) (s : S) : S :=
  fold_left (fun acc kv => (kvPut acc kv.1 kv.2).1) L s.

(** [runs_as c L r]: [c] makes the writes [L], in that order, and returns
    [r], from whatever store it starts. *)
Definition runs_as {S : Type} `{KV S} (c : M S unit) (L : list (Hash * bytes)) (r : result unit)
  : Prop :=
  forall s, c s = (apply_puts L s, r).

(** The tags of the keys that the prefetcher writes. *)
Definition prefetched_tag (k : Hash) : Prop :=
  exists t, t <> LocalKeyType /\ key_tag k = Some (tag t).

(** What a prefetch amounts to on a store that keeps its contract: a fixed
    sequence of writes and a result; no write at all when the result is an
    error; and keys with the tags of the prefetcher only. *)
Definition prefetch_outcome {S : Type} `{KV S} (c : M S unit) : Prop :=
  exists L r,
    runs_as c L r /\
    (r <> Ok tt -> L = []) /\
    Forall (fun kv => prefetched_tag kv.1) L.

(** The answer of the [/dehash/] handler to a lookup of [key]: 200 with the
    preimage, 404 on an error of the source. *)
Definition dehash_answer {St : Type}
    (preimageSource : nat -> St -> Hash -> option (St * result bytes))
    (fuel : nat) (st : St) (key : Hash) : option (St * Outcome) :=
  match preimageSource fuel st key with
  | None => None
  | Some (st', Err _) => Some (st', Responded StatusNotFound [])
  | Some (st', Ok val) => Some (st', Responded StatusOK val)
  end.

(** ** A second mocked upstream, with a block of two transactions *)

Module MockBlock.

Definition tx1 : bytes := [Byte.x01; Byte.x02].
Definition tx2 : bytes := [Byte.x03].

(** As [Mock.env], but the block has two transactions and two receipts, and
    the stand-in for the trie has one node per value. *)
Definition env : Env :=
  {| BlockInfo := bytes;
     Transactions := list bytes;
     Receipts := list bytes;
     HeaderRLP := fun h => Ok h;
     EncodeTransactions := fun txs => Ok txs;
     EncodeReceipts := fun rs => Ok rs;
     WriteTrie := fun values => (make 32, values);
     Keccak256Hash := Mock.lastBytes;
     KZGPointEvaluation_Run := fun _ => Err (ErrorNew "invalid input length");
     l1Fetcher :=
       {| InfoByHash := fun _ => Ok Mock.header;
          InfoAndTxsByHash := fun _ => Ok (Mock.header, [tx1; tx2]);
          FetchReceipts := fun _ => Ok (Mock.header, [tx2; tx1]) |};
     l1BlobFetcher := {| GetBlobSidecars := fun _ _ => Ok [Mock.sidecar] |} |}.

Definition txsHint : string :=
  "l1-transactions 0x0000000000000000000000000000000000000000000000000000000000000000".

Definition receiptsHint : string :=
  "l1-receipts 0x0000000000000000000000000000000000000000000000000000000000000000".

(** A configuration for fetching mode with an in-memory store. *)
Definition fetchingConfig : HostConfig.Config :=
  {| HostConfig.DataDir := ""; HostConfig.L1Head := repeat Byte.xaa 32;
     HostConfig.L1URL := "http://localhost:8545"; HostConfig.L1BeaconURL := "";
     HostConfig.L1TrustRPC := false; HostConfig.L1RPCKind := "standard";
     HostConfig.ExecCmd := ""; HostConfig.ServerMode := true;
     HostConfig.IsCustomChainConfig := false |}.

(** A DA server that holds one input, under the key that is the input
    itself (the stand-in for the hash is the identity). *)
Definition daInput : bytes := [Byte.xca; Byte.xfe].

Definition daServer (req : Plasma.Request) : result Plasma.Response :=
  Ok {| Plasma.StatusCode := StatusOK;
        Plasma.Body := match Plasma.req_Body req with
                       | Some _ => Ok []
                       | None => Ok daInput
                       end |}.

Definition daClient : Plasma.DAClient := Plasma.NewDAClient "http://da" true.

End MockBlock.

(** * Properties *)

(** ** The local source *)

Example l1HeadKey_bytes :
  LocalSource.l1HeadKey = Byte.x01 :: repeat Byte.x00 30 ++ [Byte.x01].
Proof. reflexivity. Qed.

(** C7. [LocalPreimageSource.Get] returns the configured L1 head hash, 32
    bytes long, for the local key of index 1 (tag 1 followed by the index in
    big-endian order), and [ErrNotFound] for every other key. *)
Theorem LocalPreimageSource_Get_l1Head (s : LocalSource.LocalPreimageSource) :
  key_tag (LocalIndexKey 1) = Some (tag LocalKeyType) /\
  (exists head : bytes,
      LocalSource.Get s (LocalIndexKey 1) = Ok head /\
      head = LocalSource.L1Head (LocalSource.config s) /\
      length head = 32%nat) /\
  (forall key : Hash, key <> LocalIndexKey 1 -> LocalSource.Get s key = Err ErrNotFound).
Proof.
  split; [reflexivity|]. split.
  - exists (LocalSource.L1Head (LocalSource.config s)).
    split; [|split; [reflexivity | apply LocalSource.L1Head_len]].
    unfold LocalSource.Get, LocalSource.l1HeadKey, LocalSource.L1HeadLocalIndex.
    destruct (decide (LocalIndexKey 1 = LocalIndexKey 1)) as [_|Hne]; [reflexivity|].
    exfalso; apply Hne; reflexivity.
  - intros key Hkey. unfold LocalSource.Get, LocalSource.l1HeadKey, LocalSource.L1HeadLocalIndex.
    destruct (decide (key = LocalIndexKey 1)) as [Heq|_]; [contradiction|reflexivity].
Qed.

(** ** The prefetcher over any store *)

Section PrefetcherFacts.

Context {S : Type} `{KV S}.
Variable env : Env.

Lemma GetPreimage_loop_exit fuel p key got :
  retries (lastHint p) got = false ->
  GetPreimage_loop env fuel p key got = Some (p, got).
Proof.
  destruct got as [v|err]; simpl; intros Hr.
  - destruct fuel; reflexivity.
  - destruct fuel; simpl; rewrite Hr; reflexivity.
Qed.

Lemma GetPreimage_loop_step fuel p key got :
  retries (lastHint p) got = true ->
  GetPreimage_loop env (Datatypes.S fuel) p key got =
    match prefetch env (lastHint p) (kvStore p) with
    | (s', Err err) => Some (with_store p s', Err (Errorf "prefetch failed: %w" (Some err)))
    | (s', Ok _) => GetPreimage_loop env fuel (with_store p s') key (kvGet s' key)
    end.
Proof.
  destruct got as [v|err]; simpl; intros Hr; [discriminate|].
  rewrite Hr. reflexivity.
Qed.

Lemma GetPreimage_loop_out_of_fuel p key got :
  retries (lastHint p) got = true ->
  GetPreimage_loop env 0 p key got = None.
Proof.
  destruct got as [v|err]; simpl; intros Hr; [discriminate|].
  rewrite Hr. reflexivity.
Qed.

(** More fuel does not change a returned result. *)
Lemma GetPreimage_loop_mono fuel : forall p key got r,
  GetPreimage_loop env fuel p key got = Some r ->
  forall fuel', (fuel <= fuel')%nat -> GetPreimage_loop env fuel' p key got = Some r.
Proof.
  induction fuel as [|fuel IH]; intros p key got r Hrun fuel' Hle.
  - destruct (retries (lastHint p) got) eqn:Hr.
    + rewrite GetPreimage_loop_out_of_fuel in Hrun by assumption. discriminate.
    + rewrite GetPreimage_loop_exit in * by assumption. assumption.
  - destruct (retries (lastHint p) got) eqn:Hr.
    + destruct fuel' as [|fuel']; [lia|].
      rewrite GetPreimage_loop_step in * by assumption.
      destruct (prefetch env (lastHint p) (kvStore p)) as [s' [[]|e]]; [|assumption].
      apply IH with (fuel' := fuel') in Hrun; [assumption | lia].
    + rewrite GetPreimage_loop_exit in * by assumption. assumption.
Qed.

Lemma GetPreimage_loop_sound fuel : forall p key got r,
  GetPreimage_loop env fuel p key got = Some r -> get_preimage_from env p key got r.
Proof.
  induction fuel as [|fuel IH]; intros p key got r Hrun;
    destruct (retries (lastHint p) got) eqn:Hr.
  - rewrite GetPreimage_loop_out_of_fuel in Hrun by assumption. discriminate.
  - rewrite GetPreimage_loop_exit in Hrun by assumption.
    injection Hrun as <-. constructor; assumption.
  - rewrite GetPreimage_loop_step in Hrun by assumption.
    destruct (prefetch env (lastHint p) (kvStore p)) as [s' [[]|e]] eqn:Hp.
    + eapply gp_retry; eauto.
    + injection Hrun as <-. eapply gp_prefetch_failed; eauto.
  - rewrite GetPreimage_loop_exit in Hrun by assumption.
    injection Hrun as <-. constructor; assumption.
Qed.

Lemma GetPreimage_loop_complete p key got r :
  get_preimage_from env p key got r ->
  exists fuel, GetPreimage_loop env fuel p key got = Some r.
Proof.
  induction 1 as [p key got Hr | p key got s' err Hr Hp | p key got s' r Hr Hp _ [fuel IH]].
  - exists 0%nat. apply GetPreimage_loop_exit; assumption.
  - exists 1%nat. rewrite GetPreimage_loop_step by assumption. rewrite Hp. reflexivity.
  - exists (Datatypes.S fuel). rewrite GetPreimage_loop_step by assumption. rewrite Hp. exact IH.
Qed.

(** C5. [GetPreimage] follows the retry policy of the specification: it
    first reads the store; while the result is [ErrNotFound] and a
    non-empty last hint is recorded it prefetches under that hint, reads
    the store again when the prefetch succeeded and returns the prefetch
    error wrapped with "prefetch failed" when it did not; the first result
    that does not ask for a retry is what it returns.  The call returns
    [r] (with enough iterations allowed) exactly when the policy yields
    [r]. *)
Theorem GetPreimage_follows_retry_policy (p : @Prefetcher S) (key : Hash) (r : @Returned S) :
  (exists fuel, GetPreimage env fuel p key = Some r) <-> get_preimage_spec env p key r.
Proof.
  unfold GetPreimage, get_preimage_spec. split.
  - intros [fuel Hrun]. eapply GetPreimage_loop_sound; eassumption.
  - apply GetPreimage_loop_complete.
Qed.

(** *** When the loop ends *)

Lemma retries_false_leaves hint key s :
  retries hint (kvGet s key) = false -> leaves_loop env hint key s.
Proof.
  unfold retries, leaves_loop. destruct (kvGet s key) as [v|err] eqn:Hget.
  - intros _. left. intros err' [=].
  - intros Hr. apply andb_false_iff in Hr as [Hr|Hr].
    + left. intros err' [= <-]. exact Hr.
    + right; left. apply negb_false_iff, String.eqb_eq in Hr. exact Hr.
Qed.

Lemma retries_true_inv hint key s :
  retries hint (kvGet s key) = true ->
  (exists err, kvGet s key = Err err /\ errors_Is_ErrNotFound err = true) /\ hint <> "".
Proof.
  unfold retries. destruct (kvGet s key) as [v|err]; [discriminate|].
  intros Hr. apply andb_true_iff in Hr as [Hn Hh]. split; [eauto|].
  apply negb_true_iff, String.eqb_neq in Hh. exact Hh.
Qed.

Lemma GetPreimage_loop_returns_if_leaves n : forall p key s,
  store_after env n (lastHint p) (kvStore p) = Some s ->
  leaves_loop env (lastHint p) key s ->
  exists r, GetPreimage_loop env (Datatypes.S n) p key (kvGet (kvStore p) key) = Some r.
Proof.
  induction n as [|n IH]; intros p key s Hs Hleave.
  - simpl in Hs. injection Hs as <-.
    destruct (retries (lastHint p) (kvGet (kvStore p) key)) eqn:Hr.
    + rewrite GetPreimage_loop_step by assumption.
      apply retries_true_inv in Hr as [[err [Hget Hnf]] Hhint].
      destruct Hleave as [Hl|[Hl|[s' [e Hl]]]].
      * apply Hl in Hget. congruence.
      * contradiction.
      * rewrite Hl. eauto.
    + rewrite GetPreimage_loop_exit by assumption. eauto.
  - destruct (retries (lastHint p) (kvGet (kvStore p) key)) eqn:Hr.
    + rewrite GetPreimage_loop_step by assumption.
      simpl in Hs.
      destruct (prefetch env (lastHint p) (kvStore p)) as [s' [[]|e]]; [|eauto].
      apply (IH (with_store p s') key s Hs Hleave).
    + rewrite GetPreimage_loop_exit by assumption. eauto.
Qed.

Lemma GetPreimage_loop_leaves_if_returns fuel : forall p key r,
  GetPreimage_loop env fuel p key (kvGet (kvStore p) key) = Some r ->
  exists n s, store_after env n (lastHint p) (kvStore p) = Some s /\
              leaves_loop env (lastHint p) key s.
Proof.
  induction fuel as [|fuel IH]; intros p key r Hrun;
    destruct (retries (lastHint p) (kvGet (kvStore p) key)) eqn:Hr.
  - rewrite GetPreimage_loop_out_of_fuel in Hrun by assumption. discriminate.
  - exists 0%nat, (kvStore p). split; [reflexivity|]. apply retries_false_leaves; assumption.
  - rewrite GetPreimage_loop_step in Hrun by assumption.
    destruct (prefetch env (lastHint p) (kvStore p)) as [s' [[]|e]] eqn:Hp.
    + apply (IH (with_store p s')) in Hrun as [n [s [Hs Hleave]]].
      exists (Datatypes.S n), s. split; [|exact Hleave].
      simpl. rewrite Hp. exact Hs.
    + exists 0%nat, (kvStore p). split; [reflexivity|].
      right; right. eauto.
  - exists 0%nat, (kvStore p). split; [reflexivity|]. apply retries_false_leaves; assumption.
Qed.

(** C1 (as amended). [GetPreimage] returns exactly when, after some
    number of prefetches under the recorded hint that all succeeded, the
    read of the key gives something else than [ErrNotFound], or the
    recorded hint is empty, or the next prefetch returns an error.  The
    loop never clears the hint itself. *)
Theorem GetPreimage_returns_iff (p : @Prefetcher S) (key : Hash) :
  (exists fuel r, GetPreimage env fuel p key = Some r) <->
  (exists n s, store_after env n (lastHint p) (kvStore p) = Some s /\
               leaves_loop env (lastHint p) key s).
Proof.
  unfold GetPreimage. split.
  - intros [fuel [r Hrun]]. eapply GetPreimage_loop_leaves_if_returns; eassumption.
  - intros [n [s [Hs Hleave]]].
    destruct (GetPreimage_loop_returns_if_leaves n p key s Hs Hleave) as [r Hr].
    exists (Datatypes.S n), r. exact Hr.
Qed.

(** A hint under which every prefetch succeeds without producing the key
    keeps the loop running: no bound on the iterations is enough. *)
Lemma GetPreimage_loop_runs_on (Inv : S -> Prop) (hint : string) (key : Hash) :
  hint <> "" ->
  (forall s, Inv s ->
     (exists err, kvGet s key = Err err /\ errors_Is_ErrNotFound err = true) /\
     (exists s', prefetch env hint s = (s', Ok tt) /\ Inv s')) ->
  forall fuel s, Inv s ->
    GetPreimage env fuel {| lastHint := hint; kvStore := s |} key = None.
Proof.
  intros Hhint Hinv. unfold GetPreimage.
  induction fuel as [|fuel IH]; intros s Hs;
    destruct (Hinv s Hs) as [[err [Hget Hnf]] [s' [Hp Hs']]]; simpl kvStore.
  - apply GetPreimage_loop_out_of_fuel. simpl. rewrite Hget. simpl. rewrite Hnf.
    apply String.eqb_neq in Hhint. rewrite Hhint. reflexivity.
  - rewrite GetPreimage_loop_step.
    + simpl. rewrite Hp. apply (IH s' Hs').
    + simpl. rewrite Hget. simpl. rewrite Hnf.
      apply String.eqb_neq in Hhint. rewrite Hhint. reflexivity.
Qed.

(** *** Where a returned preimage comes from *)

Lemma GetPreimage_loop_from_store fuel : forall p key got p' v,
  (forall v', got = Ok v' -> kvGet (kvStore p) key = Ok v') ->
  GetPreimage_loop env fuel p key got = Some (p', Ok v) ->
  kvGet (kvStore p') key = Ok v /\ lastHint p' = lastHint p.
Proof.
  induction fuel as [|fuel IH]; intros p key got p' v Hgot Hrun;
    destruct (retries (lastHint p) got) eqn:Hr.
  - rewrite GetPreimage_loop_out_of_fuel in Hrun by assumption. discriminate.
  - rewrite GetPreimage_loop_exit in Hrun by assumption.
    injection Hrun as <- ->. split; [apply Hgot|]; reflexivity.
  - rewrite GetPreimage_loop_step in Hrun by assumption.
    destruct (prefetch env (lastHint p) (kvStore p)) as [s' [[]|e]] eqn:Hp; [|discriminate].
    apply IH in Hrun; [exact Hrun|]. simpl. intros v' Hv'. exact Hv'.
  - rewrite GetPreimage_loop_exit in Hrun by assumption.
    injection Hrun as <- ->. split; [apply Hgot|]; reflexivity.
Qed.

(** C6 (as amended). The preimage source that [PreimageServer] hands to
    the HTTP server treats a key with the local tag like any other key: in
    fetching mode and in offline mode alike, a preimage it returns for
    [key] is the value that the KV store holds under [key] when the call
    returns.  The local source takes no part in it. *)
Theorem server_preimage_comes_from_store
    (fetchingEnabled : bool) (fuel : nat) (p p' : @Prefetcher S) (key : Hash) (v : bytes) :
  server_preimageSource env fetchingEnabled fuel p key = Some (p', Ok v) ->
  kvGet (kvStore p') key = Ok v.
Proof.
  destruct fetchingEnabled; simpl.
  - unfold GetPreimage. intros Hrun.
    apply GetPreimage_loop_from_store in Hrun; [apply Hrun|].
    intros v' Hv'. exact Hv'.
  - intros [= <- Hget]. exact Hget.
Qed.

(** *** The blob case: failures of the fetch *)

(** C10. During an [l1-blob] prefetch, if [GetBlobSidecars] returns an
    error or a number of sidecars other than one, [prefetch] returns an
    error and the store is the one it started from, whatever the
    implementation of the store: no [Put] has been issued. *)
Theorem prefetch_blob_fetch_failure_no_put (hint : string) (hintBytes : bytes) (s : S) :
  parseHint hint = Ok (HintL1Blob, hintBytes) ->
  (forall sidecars,
      GetBlobSidecars (l1BlobFetcher env) (Uint64 (slice 40 48 hintBytes))
        [{| ibh_Index := Uint64 (slice 32 40 hintBytes);
            ibh_Hash := slice 0 32 hintBytes |}] = Ok sidecars ->
      length sidecars <> 1%nat) ->
  exists err, prefetch env hint s = (s, Err err).
Proof.
  intros Hparse Hfetch. unfold prefetch. rewrite Hparse.
  change (String.eqb HintL1Blob HintL1BlockHeader) with false.
  change (String.eqb HintL1Blob HintL1Transactions) with false.
  change (String.eqb HintL1Blob HintL1Receipts) with false.
  change (String.eqb HintL1Blob HintL1Blob) with true.
  cbv iota.
  destruct (negb (length hintBytes =? 48)%nat); [unfold fail; eauto|].
  destruct (GetBlobSidecars _ _ _) as [sidecars|err] eqn:Hget; [|unfold fail; eauto].
  specialize (Hfetch sidecars eq_refl).
  destruct sidecars as [|sc [|sc' rest]]; [unfold fail; eauto | | unfold fail; eauto].
  simpl in Hfetch. congruence.
Qed.

End PrefetcherFacts.

(** ** Bytes and big-endian integers *)

Lemma to_N_byte_of_N v : Byte.to_N (byte_of_N v) = v mod 256.
Proof.
  unfold byte_of_N. destruct (Byte.of_N (v mod 256)) eqn:E.
  - apply Byte.to_of_N in E. exact E.
  - apply Byte.of_N_None_iff in E. pose proof (N.mod_upper_bound v 256). lia.
Qed.

Lemma shiftr_byte_step v n :
  N.shiftr v n = 256 * N.shiftr v (n + 8) + (N.shiftr v n) mod 256.
Proof.
  rewrite !N.shiftr_div_pow2, N.pow_add_r, <- N.Div0.div_div.
  change (2 ^ 8) with 256. apply N.div_mod. discriminate.
Qed.

(** Reading back what [PutUint64] wrote. *)
Lemma Uint64_u64_be v : v < 2 ^ 64 -> Uint64 (u64_be v) = v.
Proof.
  intros Hv. unfold Uint64, u64_be. cbn [firstn fold_left].
  rewrite !to_N_byte_of_N.
  assert (H64 : N.shiftr v 64 = 0) by (rewrite N.shiftr_div_pow2; apply N.div_small; exact Hv).
  pose proof (shiftr_byte_step v 0) as H0. rewrite N.shiftr_0_r in H0.
  pose proof (shiftr_byte_step v 8) as H1. pose proof (shiftr_byte_step v 16) as H2.
  pose proof (shiftr_byte_step v 24) as H3. pose proof (shiftr_byte_step v 32) as H4.
  pose proof (shiftr_byte_step v 40) as H5. pose proof (shiftr_byte_step v 48) as H6.
  pose proof (shiftr_byte_step v 56) as H7.
  change (0 + 8) with 8 in H0. change (8 + 8) with 16 in H1.
  change (16 + 8) with 24 in H2. change (24 + 8) with 32 in H3.
  change (32 + 8) with 40 in H4. change (40 + 8) with 48 in H5.
  change (48 + 8) with 56 in H6. change (56 + 8) with 64 in H7.
  rewrite H64 in H7. lia.
Qed.

Lemma u64_be_inj v w : v < 2 ^ 64 -> w < 2 ^ 64 -> u64_be v = u64_be w -> v = w.
Proof.
  intros Hv Hw Heq.
  rewrite <- (Uint64_u64_be v Hv), <- (Uint64_u64_be w Hw), Heq. reflexivity.
Qed.

Lemma length_u64_be v : length (u64_be v) = 8%nat.
Proof. reflexivity. Qed.

(** Keys with different tags are different keys. *)
Lemma PreimageKey_tag_ne t1 t2 h1 h2 :
  t1 <> t2 -> PreimageKey t1 h1 <> PreimageKey t2 h2.
Proof.
  unfold PreimageKey. intros Hne [= Htag _]. apply Hne.
  destruct t1, t2; try reflexivity; discriminate.
Qed.

Lemma PreimageKey_eq_inv t h1 h2 :
  PreimageKey t h1 = PreimageKey t h2 -> skipn 1 h1 = skipn 1 h2.
Proof. unfold PreimageKey. intros [= Heq]. exact Heq. Qed.

(** ** Sequences of writes *)

Lemma apply_writes_app L1 L2 m :
  apply_writes (L1 ++ L2) m = apply_writes L2 (apply_writes L1 m).
Proof. apply fold_left_app. Qed.

Lemma apply_writes_union L : forall m : MemKV,
  apply_writes L m = list_to_map (rev L) ∪ m.
Proof.
  induction L as [|[k v] L IH]; intros m; simpl.
  - symmetry. apply (left_id_L ∅ (∪)).
  - unfold apply_writes in IH. rewrite IH.
    rewrite list_to_map_app. simpl.
    rewrite <- (assoc_L (∪)). f_equal.
    rewrite insert_empty. apply insert_union_singleton_l.
Qed.

Lemma apply_writes_idemp (L : list (Hash * bytes)) (m : MemKV) :
  apply_writes L (apply_writes L m) = apply_writes L m.
Proof.
  rewrite !apply_writes_union. rewrite (assoc_L (∪)).
  rewrite (idemp_L (∪)). reflexivity.
Qed.

Lemma apply_writes_cons k v (L : list (Hash * bytes)) (m : MemKV) :
  apply_writes ((k, v) :: L) m = apply_writes L (<[k:=v]> m).
Proof. reflexivity. Qed.

Lemma apply_writes_lookup_notin (L : list (Hash * bytes)) : forall (m : MemKV) k,
  k ∉ map fst L -> apply_writes L m !! k = m !! k.
Proof.
  induction L as [|[k0 v0] L IH]; intros m k Hk; [reflexivity|].
  simpl in Hk. apply not_elem_of_cons in Hk as [Hne Hk].
  rewrite apply_writes_cons, IH by assumption.
  apply lookup_insert_ne. congruence.
Qed.

Lemma apply_writes_lookup (L : list (Hash * bytes)) : forall (m : MemKV) k v,
  NoDup (map fst L) -> (k, v) ∈ L -> apply_writes L m !! k = Some v.
Proof.
  induction L as [|[k0 v0] L IH]; intros m k v Hnd Hin.
  - apply elem_of_nil in Hin. contradiction.
  - simpl in Hnd. apply list.NoDup_cons in Hnd as [Hk0 Hnd].
    rewrite apply_writes_cons.
    apply elem_of_cons in Hin as [Heq|Hin].
    + injection Heq as -> ->.
      rewrite apply_writes_lookup_notin by assumption. apply lookup_insert_eq.
    + apply IH; assumption.
Qed.

Lemma performs_ret : performs (ret tt) [] (Ok tt).
Proof. intros m. reflexivity. Qed.

Lemma performs_fail e : performs (fail e) [] (Err e).
Proof. intros m. reflexivity. Qed.

Lemma performs_Put k v : performs (Put k v) [(k, v)] (Ok tt).
Proof. intros m. reflexivity. Qed.

Lemma performs_wrapping_Put format k v : performs (wrapping format (Put k v)) [(k, v)] (Ok tt).
Proof. intros m. reflexivity. Qed.

Lemma performs_bind c k L1 L2 r :
  performs c L1 (Ok tt) -> performs k L2 r -> performs (bind c (fun _ => k)) (L1 ++ L2) r.
Proof.
  intros Hc Hk m. unfold bind. rewrite Hc, Hk, apply_writes_app. reflexivity.
Qed.

(** A computation that performs a fixed sequence of writes leaves the store
    as it is when it is run a second time. *)
Lemma performs_idempotent (c : M MemKV unit) (L : list (Hash * bytes)) (r : result unit) (m : MemKV) :
  performs c L r -> c (c m).1 = ((c m).1, r) /\ (c m).2 = r.
Proof.
  intros Hc. rewrite !Hc. simpl. rewrite apply_writes_idemp. split; reflexivity.
Qed.

(** ** The prefetcher over the in-memory store *)

Section PrefetcherMemKV.

Variable env : Env.

Lemma storeNodes_performs nodes :
  performs (storeNodes env nodes) (node_writes env nodes) (Ok tt).
Proof.
  induction nodes as [|node rest IH]; [apply performs_ret|].
  simpl. apply (performs_bind _ _ [_]); [apply performs_wrapping_Put | exact IH].
Qed.

Lemma storeFieldElements_performs sidecar n : forall i blobKey,
  performs (storeFieldElements env n i blobKey sidecar)
    (fieldElement_writes env n i blobKey sidecar) (Ok tt).
Proof.
  induction n as [|n IH]; intros i blobKey; [apply performs_ret|].
  cbn [storeFieldElements fieldElement_writes].
  apply (performs_bind _ _ [_]); [apply performs_Put|].
  apply (performs_bind _ _ [_]); [apply performs_Put|].
  apply IH.
Qed.

(** Whatever the hint, [prefetch] makes a sequence of writes and returns a
    result that are fixed by the hint and the upstream answers; the store
    it starts from plays no part. *)
Lemma storeTrieNodes_performs values :
  exists L, performs (storeTrieNodes env values) L (Ok tt).
Proof.
  unfold storeTrieNodes. destruct (WriteTrie env values) as [root nodes].
  eexists. apply storeNodes_performs.
Qed.

Lemma prefetch_performs hint : exists L r, performs (prefetch env hint) L r.
Proof.
  unfold prefetch.
  destruct (parseHint hint) as [[hintType hintBytes]|err];
    [|eexists _, _; apply performs_fail].
  destruct (String.eqb hintType HintL1BlockHeader).
  { destruct (negb _); [eexists _, _; apply performs_fail|].
    destruct (InfoByHash _ _) as [header|err]; [|eexists _, _; apply performs_fail].
    destruct (HeaderRLP env header) as [data|err]; [|eexists _, _; apply performs_fail].
    eexists _, _; apply performs_Put. }
  destruct (String.eqb hintType HintL1Transactions).
  { destruct (negb _); [eexists _, _; apply performs_fail|].
    destruct (InfoAndTxsByHash _ _) as [[info txs]|err]; [|eexists _, _; apply performs_fail].
    unfold storeTransactions.
    destruct (EncodeTransactions env txs) as [opaqueTxs|err]; [|eexists _, _; apply performs_fail].
    destruct (storeTrieNodes_performs opaqueTxs) as [L HL]. eexists _, _; exact HL. }
  destruct (String.eqb hintType HintL1Receipts).
  { destruct (negb _); [eexists _, _; apply performs_fail|].
    destruct (FetchReceipts _ _) as [[info receipts]|err]; [|eexists _, _; apply performs_fail].
    unfold storeReceipts.
    destruct (EncodeReceipts env receipts) as [opaqueReceipts|err]; [|eexists _, _; apply performs_fail].
    destruct (storeTrieNodes_performs opaqueReceipts) as [L HL]. eexists _, _; exact HL. }
  destruct (String.eqb hintType HintL1Blob).
  { destruct (negb _); [eexists _, _; apply performs_fail|].
    destruct (GetBlobSidecars _ _ _) as [sidecars|err]; [|eexists _, _; apply performs_fail].
    destruct sidecars as [|sidecar [|sidecar' rest]];
      [eexists _, _; apply performs_fail | | eexists _, _; apply performs_fail].
    eexists _, _. eapply performs_bind; [apply performs_Put|].
    apply storeFieldElements_performs. }
  destruct (String.eqb hintType HintL1KZGPointEvaluation).
  { eexists _, _. eapply performs_bind; apply performs_Put. }
  eexists _, _; apply performs_fail.
Qed.

(** C9. Prefetch is idempotent on the store: with upstream answers that
    are a function of the request, a second [prefetch] under the same hint
    returns what the first returned and leaves the store as the first
    left it. *)
Theorem prefetch_idempotent (hint : string) (m : MemKV) :
  let '(m1, r1) := prefetch env hint m in
  prefetch env hint m1 = (m1, r1).
Proof.
  destruct (prefetch_performs hint) as [L [r Hperf]].
  pose proof (performs_idempotent _ L r m Hperf) as [Hagain Hr].
  destruct (prefetch env hint m) as [m1 r1]. simpl in *. subst r1. exact Hagain.
Qed.

(** *** The point-evaluation case *)

(** C8. For a hint of type [l1-kzg-point-evaluation] with payload
    [input], [prefetch] runs the point-evaluation precompile on [input]
    and, with [h] the hash of [input], writes [input] under the Keccak256
    key of [h] and, under the KZG key of [h], the byte 1 if the precompile
    returned without error and the byte 0 if it returned an error; in both
    cases [prefetch] itself returns without error, and no other key of the
    store changes. *)
Theorem prefetch_kzg_point_evaluation (hint : string) (input : bytes) (m : MemKV) :
  parseHint hint = Ok (HintL1KZGPointEvaluation, input) ->
  let h := Keccak256Hash env input in
  let verdict :=
    match KZGPointEvaluation_Run env input with
    | Ok _ => [Byte.x01]
    | Err _ => [Byte.x00]
    end in
  exists m' : MemKV,
    prefetch env hint m = (m', Ok tt) /\
    m' !! PreimageKey Keccak256KeyType h = Some input /\
    m' !! PreimageKey KZGPointEvaluationKeyType h = Some verdict /\
    (forall k, k <> PreimageKey Keccak256KeyType h ->
               k <> PreimageKey KZGPointEvaluationKeyType h -> m' !! k = m !! k).
Proof.
  intros Hparse h verdict. unfold prefetch. rewrite Hparse.
  change (String.eqb HintL1KZGPointEvaluation HintL1BlockHeader) with false.
  change (String.eqb HintL1KZGPointEvaluation HintL1Transactions) with false.
  change (String.eqb HintL1KZGPointEvaluation HintL1Receipts) with false.
  change (String.eqb HintL1KZGPointEvaluation HintL1Blob) with false.
  change (String.eqb HintL1KZGPointEvaluation HintL1KZGPointEvaluation) with true.
  cbv iota. unfold bind, Put. simpl.
  eexists. split; [reflexivity|]. fold h.
  assert (Hne : PreimageKey KZGPointEvaluationKeyType h <> PreimageKey Keccak256KeyType h)
    by (apply PreimageKey_tag_ne; discriminate).
  split; [|split].
  - rewrite lookup_insert_ne by exact Hne. apply lookup_insert_eq.
  - rewrite lookup_insert_eq. unfold verdict, kzgPointEvaluationSuccess, kzgPointEvaluationFailure.
    destruct (KZGPointEvaluation_Run env input); reflexivity.
  - intros k Hk2 Hk6. rewrite !lookup_insert_ne by congruence. reflexivity.
Qed.

(** *** The blob case *)

Lemma blob_buffer_init C :
  length C = 48%nat ->
  copy_at 0 48 (make 80) C = C ++ make 32.
Proof.
  intros HC. unfold copy_at, copy.
  change (slice 0 48 (make 80)) with (make 48).
  change (length (make 48)) with 48%nat. rewrite HC.
  change (Nat.min 48 48) with 48%nat.
  rewrite (firstn_all2 C) by lia.
  change (skipn 48 (make 48)) with (@nil byte).
  change (skipn 48 (make 80)) with (make 32).
  rewrite app_nil_r. reflexivity.
Qed.

Lemma blob_buffer_step C (blobKey : bytes) v :
  length blobKey = 80%nat -> firstn 72 blobKey = C ++ make 24 ->
  PutUint64_at 72 blobKey v = C ++ make 24 ++ u64_be v.
Proof.
  intros Hlen Hpre. unfold PutUint64_at. rewrite Hpre.
  change (72 + 8)%nat with 80%nat.
  rewrite skipn_all2 by lia. rewrite app_nil_r, <- app_assoc. reflexivity.
Qed.

Lemma fieldElement_writes_spec C sidecar n : forall i blobKey,
  length C = 48%nat ->
  length blobKey = 80%nat -> firstn 72 blobKey = C ++ make 24 ->
  fieldElement_writes env n i blobKey sidecar =
    flat_map (field_element_writes env C (Blob sidecar)) (seq i n).
Proof.
  induction n as [|n IH]; intros i blobKey HC Hlen Hpre; [reflexivity|].
  cbn [fieldElement_writes seq flat_map].
  rewrite (blob_buffer_step C blobKey _ Hlen Hpre).
  fold (blobKey_at C i). unfold field_element_writes at 1.
  rewrite !Nat.shiftl_mul_pow2. change (2 ^ 5)%nat with 32%nat.
  cbn [app]. do 2 f_equal.
  rewrite Nat.add_1_r. apply IH; [exact HC | |].
  - unfold blobKey_at. rewrite !length_app, HC. reflexivity.
  - unfold blobKey_at. rewrite app_assoc.
    rewrite firstn_app.
    replace (length (C ++ make 24)) with 72%nat by (rewrite length_app, HC; reflexivity).
    rewrite firstn_all2 by (rewrite length_app, HC; simpl; lia).
    change (72 - 72)%nat with 0%nat. rewrite app_nil_r. reflexivity.
Qed.

Lemma field_element_writes_keys C B l :
  map fst (flat_map (field_element_writes env C B) l) = flat_map (field_element_keys env C) l.
Proof.
  induction l as [|i l IH]; [reflexivity|].
  cbn [flat_map]. rewrite map_app, IH. reflexivity.
Qed.

Lemma blob_writes_keys V C B : map fst (blob_writes env V C B) = blob_keys env V C.
Proof.
  unfold blob_writes, blob_keys. rewrite map_cons, field_element_writes_keys. reflexivity.
Qed.

Lemma length_field_element_keys C l :
  length (flat_map (field_element_keys env C) l) = (length l * 2)%nat.
Proof.
  induction l as [|i l IH]; [reflexivity|].
  cbn [flat_map]. rewrite length_app, IH. simpl. lia.
Qed.

Lemma elem_of_field_element_keys C l k :
  k ∈ flat_map (field_element_keys env C) l ->
  exists j, j ∈ l /\
    (k = PreimageKey Keccak256KeyType (Keccak256Hash env (blobKey_at C j)) \/
     k = PreimageKey BlobKeyType (Keccak256Hash env (blobKey_at C j))).
Proof.
  intros Hk. apply list_elem_of_In, in_flat_map in Hk as [j [Hj Hk]].
  exists j. split; [apply list_elem_of_In; exact Hj|].
  simpl in Hk. destruct Hk as [<-|[<-|[]]]; [left | right]; reflexivity.
Qed.

Lemma field_element_keys_NoDup C l :
  field_hashes_distinct env C ->
  NoDup l -> (forall i, i ∈ l -> (i < BlobTxFieldElementsPerBlob)%nat) ->
  NoDup (flat_map (field_element_keys env C) l).
Proof.
  intros Hinj. induction l as [|a l IH]; intros Hnd Hlt; [constructor|].
  apply list.NoDup_cons in Hnd as [Ha Hnd].
  cbn [flat_map]. apply list.NoDup_app. split; [|split].
  - unfold field_element_keys. apply list.NoDup_cons. split.
    + intros Hin. apply list_elem_of_singleton in Hin.
      revert Hin. apply PreimageKey_tag_ne. discriminate.
    + apply NoDup_singleton.
  - intros k Hk Hk'.
    apply elem_of_field_element_keys in Hk' as [j [Hj Hk']].
    assert (a <> j) by (intros ->; contradiction).
    assert (Hlta : (a < BlobTxFieldElementsPerBlob)%nat) by (apply Hlt; left).
    assert (Hltj : (j < BlobTxFieldElementsPerBlob)%nat) by (apply Hlt; right; exact Hj).
    unfold field_element_keys in Hk.
    apply elem_of_cons in Hk as [->|Hk]; [|apply list_elem_of_singleton in Hk as ->];
      destruct Hk' as [Hk'|Hk'].
    + apply PreimageKey_eq_inv in Hk'. apply Hinj in Hk'; auto.
    + revert Hk'. apply PreimageKey_tag_ne. discriminate.
    + revert Hk'. apply PreimageKey_tag_ne. discriminate.
    + apply PreimageKey_eq_inv in Hk'. apply Hinj in Hk'; auto.
  - apply IH; [exact Hnd|]. intros i Hi. apply Hlt. right. exact Hi.
Qed.

Lemma blob_keys_NoDup V C : field_hashes_distinct env C -> NoDup (blob_keys env V C).
Proof.
  intros Hinj. unfold blob_keys. apply list.NoDup_cons. split.
  - intros Hin. apply elem_of_field_element_keys in Hin as [j [_ [Hk|Hk]]];
      revert Hk; apply PreimageKey_tag_ne; discriminate.
  - apply field_element_keys_NoDup; [exact Hinj | apply NoDup_seq |].
    intros i Hi. apply elem_of_seq in Hi. lia.
Qed.

Lemma prefetch_blob_performs (hint : string) (hintBytes : bytes) (sidecar : BlobSidecar) :
  parseHint hint = Ok (HintL1Blob, hintBytes) ->
  length hintBytes = 48%nat ->
  GetBlobSidecars (l1BlobFetcher env) (Uint64 (slice 40 48 hintBytes))
    [{| ibh_Index := Uint64 (slice 32 40 hintBytes);
        ibh_Hash := slice 0 32 hintBytes |}] = Ok [sidecar] ->
  length (KZGCommitment sidecar) = 48%nat ->
  performs (prefetch env hint)
    (blob_writes env (slice 0 32 hintBytes) (KZGCommitment sidecar) (Blob sidecar)) (Ok tt).
Proof.
  intros Hparse Hlen Hget HC. unfold prefetch. rewrite Hparse.
  change (String.eqb HintL1Blob HintL1BlockHeader) with false.
  change (String.eqb HintL1Blob HintL1Transactions) with false.
  change (String.eqb HintL1Blob HintL1Receipts) with false.
  change (String.eqb HintL1Blob HintL1Blob) with true.
  cbv iota. rewrite Hlen. change (negb (48 =? 48)%nat) with false. cbv iota.
  rewrite Hget. unfold blob_writes.
  apply (performs_bind _ _ [_]); [apply performs_Put|].
  rewrite <- (fieldElement_writes_spec _ _ _ 0 (copy_at 0 48 (make 80) (KZGCommitment sidecar))).
  - apply storeFieldElements_performs.
  - exact HC.
  - rewrite blob_buffer_init by exact HC. rewrite length_app, HC. reflexivity.
  - rewrite blob_buffer_init by exact HC.
    rewrite firstn_app, HC. rewrite firstn_all2 by lia. reflexivity.
Qed.

(** C2. After an [l1-blob] prefetch for versioned hash [V] whose sidecar
    carries commitment [C] (48 bytes) and blob [B], the prefetch has
    succeeded and the store maps the Sha256 key of [V] to [C] and, for
    every [i] below 4096, with [blobKey] the commitment followed by 24
    zero bytes and the big-endian index and [h] its hash, the Keccak256
    key of [h] to [blobKey] and the blob key of [h] to bytes [i*32] to
    [(i+1)*32] of [B].  The keys written are these [1 + 4096*2] keys, all
    different, and no other key of the store changes.  The hash is taken
    not to collide on the 4096 keys of the commitment. *)
Theorem prefetch_blob_expansion
    (hint : string) (hintBytes : bytes) (sidecar : BlobSidecar) (m : MemKV) :
  parseHint hint = Ok (HintL1Blob, hintBytes) ->
  length hintBytes = 48%nat ->
  GetBlobSidecars (l1BlobFetcher env) (Uint64 (slice 40 48 hintBytes))
    [{| ibh_Index := Uint64 (slice 32 40 hintBytes);
        ibh_Hash := slice 0 32 hintBytes |}] = Ok [sidecar] ->
  length (KZGCommitment sidecar) = 48%nat ->
  field_hashes_distinct env (KZGCommitment sidecar) ->
  let V := slice 0 32 hintBytes in
  let C := KZGCommitment sidecar in
  let B := Blob sidecar in
  exists m' : MemKV,
    prefetch env hint m = (m', Ok tt) /\
    m' !! PreimageKey Sha256KeyType V = Some C /\
    (forall i, (i < 4096)%nat ->
       let blobKey := C ++ repeat Byte.x00 24 ++ u64_be (N.of_nat i) in
       let h := Keccak256Hash env blobKey in
       m' !! PreimageKey Keccak256KeyType h = Some blobKey /\
       m' !! PreimageKey BlobKeyType h = Some (slice (i * 32) ((i + 1) * 32) B)) /\
    length (blob_keys env V C) = (1 + 4096 * 2)%nat /\
    NoDup (blob_keys env V C) /\
    (forall k, k ∈ blob_keys env V C -> is_Some (m' !! k)) /\
    (forall k, k ∉ blob_keys env V C -> m' !! k = m !! k).
Proof.
  intros Hparse Hlen Hget HC Hinj V C B.
  pose proof (prefetch_blob_performs hint hintBytes sidecar Hparse Hlen Hget HC) as Hperf.
  fold V C B in Hperf.
  exists (apply_writes (blob_writes env V C B) m).
  assert (Hnd : NoDup (map fst (blob_writes env V C B)))
    by (rewrite blob_writes_keys; apply blob_keys_NoDup; exact Hinj).
  assert (Hfield : forall i v, (i < 4096)%nat ->
            (v ∈ field_element_writes env C B i) -> v ∈ blob_writes env V C B).
  { intros i v Hi Hv. unfold blob_writes. right.
    apply list_elem_of_In, in_flat_map. exists i. split.
    - apply in_seq. unfold BlobTxFieldElementsPerBlob. lia.
    - apply list_elem_of_In. exact Hv. }
  split; [apply Hperf|]. split; [|split; [|split; [|split; [|split]]]].
  - apply apply_writes_lookup; [exact Hnd|]. unfold blob_writes. left.
  - intros i Hi blobKey h. split.
    + apply apply_writes_lookup; [exact Hnd|]. apply (Hfield i _ Hi). left.
    + apply apply_writes_lookup; [exact Hnd|]. apply (Hfield i _ Hi). right; left.
  - unfold blob_keys. cbn [length]. rewrite length_field_element_keys, length_seq.
    unfold BlobTxFieldElementsPerBlob. lia.
  - rewrite <- (blob_writes_keys V C B). exact Hnd.
  - intros k Hk. rewrite <- (blob_writes_keys V C B) in Hk.
    apply list_elem_of_fmap in Hk as [[k' v] [-> Hkv]].
    exists v. apply apply_writes_lookup; assumption.
  - intros k Hk. apply apply_writes_lookup_notin.
    rewrite blob_writes_keys. exact Hk.
Qed.

(** *** The block-header case *)

Lemma prefetch_header_performs (hint : string) (hash : Hash) header data :
  parseHint hint = Ok (HintL1BlockHeader, hash) ->
  length hash = 32%nat ->
  InfoByHash (l1Fetcher env) hash = Ok header ->
  HeaderRLP env header = Ok data ->
  performs (prefetch env hint) [(PreimageKey Keccak256KeyType hash, data)] (Ok tt).
Proof.
  intros Hparse Hlen Hinfo Hrlp. unfold prefetch. rewrite Hparse.
  change (String.eqb HintL1BlockHeader HintL1BlockHeader) with true.
  cbv iota. rewrite Hlen. change (negb (32 =? 32)%nat) with false. cbv iota.
  rewrite Hinfo, Hrlp. apply performs_Put.
Qed.

End PrefetcherMemKV.

(** ** Substrings *)

Lemma append_String c (t b : string) : (String c t ++ b)%string = String c (t ++ b)%string.
Proof. reflexivity. Qed.

Lemma append_empty (b : string) : ("" ++ b)%string = b.
Proof. reflexivity. Qed.

Lemma prefix_true_iff t : forall s,
  String.prefix t s = true <-> exists b, s = (t ++ b)%string.
Proof.
  induction t as [|c t IH]; intros s.
  - split; [intros _; exists s; reflexivity | destruct s; reflexivity].
  - destruct s as [|d s]; simpl.
    + split; [discriminate | intros [b Hb]; rewrite append_String in Hb; discriminate].
    + destruct (ascii_dec c d) as [->|Hne].
      * rewrite IH. split; intros [b Hb]; exists b; rewrite append_String in *; congruence.
      * split; [discriminate | intros [b Hb]; rewrite append_String in Hb; congruence].
Qed.

Lemma Contains_true_iff t : forall s,
  Strings.Contains s t = true <-> is_substring t s.
Proof.
  unfold Strings.Contains, is_substring.
  induction s as [|c s IH]; cbn [Strings.Index].
  - destruct (String.prefix t "") eqn:Hp.
    + split; [intros _|reflexivity]. apply prefix_true_iff in Hp as [b Hb].
      exists ""%string, b. exact Hb.
    + split; [discriminate|]. intros [a [b Hab]].
      destruct a; [|rewrite append_String in Hab; discriminate].
      rewrite append_empty in Hab.
      assert (String.prefix t "" = true) by (apply prefix_true_iff; eauto). congruence.
  - destruct (String.prefix t (String c s)) eqn:Hp.
    + split; [intros _|reflexivity]. apply prefix_true_iff in Hp as [b Hb].
      exists ""%string, b. exact Hb.
    + destruct (Strings.Index s t) as [i|]; cbn [option_map].
      * split; [intros _|reflexivity].
        destruct IH as [IH _]. destruct (IH eq_refl) as [a [b Hab]].
        exists (String c a), b. rewrite append_String. congruence.
      * split; [discriminate|]. intros [a [b Hab]].
        destruct a as [|d a].
        -- rewrite append_empty in Hab.
           assert (String.prefix t (String c s) = true) by (apply prefix_true_iff; eauto).
           congruence.
        -- rewrite append_String in Hab. injection Hab as _ Hab.
           destruct IH as [_ IH]. discriminate IH. eauto.
Qed.

(** ** The HTTP handlers *)

Lemma mentions_hint_type_iff hint :
  mentions_hint_type hint = true <-> exists t, In t hint_types /\ is_substring t hint.
Proof.
  unfold mentions_hint_type. rewrite existsb_exists.
  split; intros [t [Ht Hc]]; exists t; (split; [exact Ht|]); apply Contains_true_iff; exact Hc.
Qed.

Section httpServerFacts.

Context {St : Type}.
Variable preimageSource : nat -> St -> Hash -> option (St * result bytes).
Variable spare : string -> bytes.

(** A key that is not hexadecimal is answered with 400. *)
Lemma handleDehash_malformed_hex fuel st path key err :
  Hex.DecodeString (Strings.drop 8 path) = (key, Some err) ->
  handleDehash preimageSource spare fuel st path = Some (st, Responded StatusBadRequest []).
Proof.
  intros Hdec. unfold handleDehash. change (String.length "/dehash/") with 8%nat.
  rewrite Hdec. reflexivity.
Qed.

(** A hexadecimal key of at least 32 bytes is looked up with its first
    byte replaced by the tag 2; a hit is answered with 200 and the
    preimage, an error of the source with 404. *)
Lemma handleDehash_lookup fuel st path b rest st' r :
  Hex.DecodeString (Strings.drop 8 path) = (b :: rest, None) ->
  (31 <= length rest)%nat ->
  preimageSource fuel st (PreimageKey Keccak256KeyType (firstn 32 (b :: rest))) = Some (st', r) ->
  handleDehash preimageSource spare fuel st path =
    Some (st', match r with
               | Ok val => Responded StatusOK val
               | Err _ => Responded StatusNotFound []
               end).
Proof.
  intros Hdec Hlen Hsrc. unfold handleDehash. change (String.length "/dehash/") with 8%nat.
  rewrite Hdec.
  assert (Hcap : (32 <=? length (Byte.x02 :: rest) + length (spare (Strings.drop 8 path)))%nat = true).
  { apply Nat.leb_le. cbn [length]. lia. }
  rewrite Hcap.
  rewrite firstn_app.
  replace (32 - length (Byte.x02 :: rest))%nat with 0%nat by (simpl; lia).
  rewrite firstn_O, app_nil_r.
  change (firstn 32 (Byte.x02 :: rest)) with
    (PreimageKey Keccak256KeyType (firstn 32 (b :: rest))).
  rewrite Hsrc. destruct r; reflexivity.
Qed.

(** C3 (the request that breaks it). [GET /dehash/] with an empty key:
    the key decodes to no bytes, the write of the tag into its first byte
    is out of range and the handler panics; no 400 is sent. *)
Theorem handleDehash_empty_key_panics (fuel : nat) (st : St) :
  Hex.DecodeString (Strings.drop 8 "/dehash/") = ([], None) /\
  handleDehash preimageSource spare fuel st "/dehash/" = Some (st, Panicked).
Proof. split; reflexivity. Qed.

End httpServerFacts.

Section hintHandlerFacts.

Context {S : Type} `{KV S}.

Lemma handleHint_server (fetchingEnabled : bool) (p : @Prefetcher S) (path : string) :
  let hint := Strings.drop 6 path in
  handleHint (server_hintHandler fetchingEnabled) p path =
    if mentions_hint_type hint
    then (if fetchingEnabled then {| lastHint := hint; kvStore := kvStore p |} else p,
          Responded StatusOK (of_string "ok"))
    else (p, Responded StatusBadRequest []).
Proof.
  intros hint. unfold handleHint, mentions_hint_type, hint_types.
  change (String.length "/hint/") with 6%nat. fold hint. cbn [existsb].
  destruct (Strings.Contains hint HintL1BlockHeader),
           (Strings.Contains hint HintL1Transactions),
           (Strings.Contains hint HintL1Receipts),
           (Strings.Contains hint HintL1Blob),
           (Strings.Contains hint HintL1KZGPointEvaluation);
    destruct fetchingEnabled; reflexivity.
Qed.

(** C4 (as amended). The handler of [/hint/] checks that the hint
    contains one of the five recognised type strings somewhere; it answers
    200 with body "ok" exactly when it does, and 400 exactly when it does
    not.  Neither hint handler of the server returns an error: in fetching
    mode the hint is recorded as the last hint, offline it is dropped.
    The form of the hint is not examined here. *)
Theorem handleHint_accepts_iff_mentions_type
    (fetchingEnabled : bool) (p : @Prefetcher S) (path : string) :
  let hint := Strings.drop 6 path in
  let '(p', out) := handleHint (server_hintHandler fetchingEnabled) p path in
  (out = Responded StatusOK (of_string "ok") <->
     exists t, In t hint_types /\ is_substring t hint) /\
  (out = Responded StatusBadRequest [] <->
     ~ exists t, In t hint_types /\ is_substring t hint) /\
  (out = Responded StatusOK (of_string "ok") -> fetchingEnabled = true ->
     p' = {| lastHint := hint; kvStore := kvStore p |}) /\
  (out = Responded StatusBadRequest [] \/ fetchingEnabled = false -> p' = p).
Proof.
  intros hint. rewrite handleHint_server. fold hint.
  pose proof (mentions_hint_type_iff hint) as Hiff.
  destruct (mentions_hint_type hint); destruct fetchingEnabled;
    (split; [|split; [|split]]);
    first
      [ solve [intros [?|?]; (discriminate || reflexivity)]
      | solve [intros; (discriminate || reflexivity)]
      | solve [split; [intros _; apply Hiff; reflexivity | reflexivity]]
      | solve [split; [discriminate | intros Hn; exfalso; apply Hn, Hiff; reflexivity]]
      | solve [split; [discriminate | intros HP; apply Hiff in HP; discriminate]]
      | solve [split; [intros _ HP; apply Hiff in HP; discriminate | reflexivity]] ].
Qed.

End hintHandlerFacts.

(** ** The mocked upstream at work *)

Example parseHint_header :
  parseHint Mock.headerHint = Ok (HintL1BlockHeader, repeat Byte.x00 32).
Proof. reflexivity. Qed.

Example parseHint_no_separator :
  parseHint "l1-blob" = Err (Errorf "unsupported hint: %s" None).
Proof. reflexivity. Qed.

Example parseHint_odd_hex :
  parseHint "l1-blob 0xabc" = Err (Errorf "invalid bytes: %s" None).
Proof. reflexivity. Qed.

Example parseHint_no_0x :
  parseHint "l1-blob deadbeef" = Err (Errorf "invalid bytes: %s" None).
Proof. reflexivity. Qed.

Example handleDehash_rewrites_tag :
  handleDehash (St := unit) (fun _ st key => Some (st, Ok key)) (fun _ => []) 0 tt
    "/dehash/ff01000000000000000000000000000000000000000000000000000000000000" =
  Some (tt, Responded StatusOK (Byte.x02 :: Byte.x01 :: repeat Byte.x00 30)).
Proof. reflexivity. Qed.

Example handleDehash_miss :
  handleDehash (St := unit) (fun _ st key => Some (st, Err ErrNotFound)) (fun _ => []) 0 tt
    "/dehash/ff01000000000000000000000000000000000000000000000000000000000000" =
  Some (tt, Responded StatusNotFound []).
Proof. reflexivity. Qed.

Example handleDehash_not_hex :
  handleDehash (St := unit) (fun _ st key => Some (st, Ok key)) (fun _ => []) 0 tt
    "/dehash/0xzz" = Some (tt, Responded StatusBadRequest []).
Proof. reflexivity. Qed.

Example handleHint_unknown :
  handleHint (server_hintHandler true) (Mock.fresh "") "/hint/unknown 0xdead" =
    (Mock.fresh "", Responded StatusBadRequest []).
Proof. reflexivity. Qed.

Example prefetch_unknown_type :
  prefetch Mock.env "unknown 0xdead" ∅ = (∅, Err (Errorf "unknown hint type: %v" None)).
Proof. reflexivity. Qed.

Lemma Mock_prefetch_header (m : MemKV) :
  prefetch Mock.env Mock.headerHint m =
    (<[PreimageKey Keccak256KeyType (repeat Byte.x00 32) := Mock.header]> m, Ok tt).
Proof.
  apply (prefetch_header_performs Mock.env Mock.headerHint (repeat Byte.x00 32) Mock.header Mock.header);
    reflexivity.
Qed.

(** C1 (counterexample). With the header hint recorded, every prefetch
    succeeds and writes the header under the key of its block hash; a
    request for any other absent key makes the loop prefetch again and
    again, and [GetPreimage] returns for no bound on the iterations. *)
Lemma GetPreimage_stale_hint_never_returns :
  ~ exists fuel r, GetPreimage Mock.env fuel (Mock.fresh Mock.headerHint) Mock.absentKey = Some r.
Proof.
  intros [fuel [r Hrun]].
  assert (Hnone : GetPreimage Mock.env fuel (Mock.fresh Mock.headerHint) Mock.absentKey = None).
  { unfold Mock.fresh.
    apply (GetPreimage_loop_runs_on Mock.env
             (fun s : MemKV => s !! Mock.absentKey = None)).
    - discriminate.
    - intros s Hs. split.
      + exists ErrNotFound. split; [|reflexivity].
        cbn [kvGet MemKV_KV]. rewrite Hs. reflexivity.
      + eexists. split; [apply Mock_prefetch_header|].
        rewrite lookup_insert_ne; [exact Hs|]. discriminate.
    - apply lookup_empty. }
  congruence.
Qed.

(** C4 (counterexample). A hint whose type is none of the five recognised
    ones, and a hint without separator and payload, are both answered with
    "ok", because each contains [l1-blob]. *)
Lemma handleHint_accepts_unrecognised_hint :
  parseHint "not-l1-blob 0xdead" = Ok ("not-l1-blob", [Byte.xde; Byte.xad]) /\
  ~ In "not-l1-blob" hint_types /\
  handleHint (server_hintHandler true) (Mock.fresh "") "/hint/not-l1-blob 0xdead" =
    (Mock.fresh "not-l1-blob 0xdead", Responded StatusOK (of_string "ok")) /\
  parseHint "l1-blob" = Err (Errorf "unsupported hint: %s" None) /\
  handleHint (server_hintHandler true) (Mock.fresh "") "/hint/l1-blob" =
    (Mock.fresh "l1-blob", Responded StatusOK (of_string "ok")).
Proof.
  split; [reflexivity|]. split; [|split; [reflexivity|split; reflexivity]].
  unfold hint_types. simpl. intros [H|[H|[H|[H|[H|[]]]]]]; discriminate.
Qed.

(** C6 (counterexample). The key of local index 1 carries the local tag and
    the local source answers it with the L1 head; [GetPreimage], and the
    plain store of offline mode, answer it from the store, here with
    [ErrNotFound]. *)
Lemma preimageSource_skips_local_source :
  key_tag LocalSource.l1HeadKey = Some (tag LocalKeyType) /\
  LocalSource.Get Mock.localSource LocalSource.l1HeadKey = Ok (repeat Byte.xaa 32) /\
  server_preimageSource Mock.env true 1 (Mock.fresh "") LocalSource.l1HeadKey =
    Some (Mock.fresh "", Err ErrNotFound) /\
  server_preimageSource Mock.env false 1 (Mock.fresh "") LocalSource.l1HeadKey =
    Some (Mock.fresh "", Err ErrNotFound).
Proof.
  split; [reflexivity|]. split; [reflexivity|].
  unfold server_preimageSource, GetPreimage, Mock.fresh.
  cbn [kvStore kvGet MemKV_KV]. rewrite lookup_empty. split; reflexivity.
Qed.

(** C6 at work: a store that holds one byte under the local key of index 1
    answers a request for that key with that byte. *)
Lemma server_preimage_comes_from_store_witness :
  let p := {| lastHint := ""; kvStore := ({[ LocalSource.l1HeadKey := [Byte.xff] ]} : MemKV) |} in
  server_preimageSource Mock.env true 1 p LocalSource.l1HeadKey = Some (p, Ok [Byte.xff]) /\
  kvGet (kvStore p) LocalSource.l1HeadKey = Ok [Byte.xff].
Proof.
  intros p.
  assert (Hrun : server_preimageSource Mock.env true 1 p LocalSource.l1HeadKey = Some (p, Ok [Byte.xff])).
  { unfold server_preimageSource, GetPreimage, p.
    cbn [kvStore kvGet MemKV_KV]. rewrite lookup_singleton_eq. reflexivity. }
  split; [exact Hrun|].
  exact (server_preimage_comes_from_store Mock.env true 1 p p _ _ Hrun).
Defined.

(** C10 at work: the beacon node returns no sidecar for the blob hint. *)
Lemma prefetch_blob_fetch_failure_no_put_witness :
  exists err,
    prefetch Mock.envNoSidecar Mock.blobHint (∅ : MemKV) = (∅, Err err).
Proof.
  apply (prefetch_blob_fetch_failure_no_put Mock.envNoSidecar Mock.blobHint
           (Byte.x01 :: repeat Byte.x00 47)).
  - vm_compute. reflexivity.
  - intros sidecars [= <-]. simpl. lia.
Defined.

(** C8 at work: four bytes that the precompile rejects. *)
Lemma prefetch_kzg_point_evaluation_witness :
  exists m' : MemKV,
    prefetch Mock.env Mock.kzgHint ∅ = (m', Ok tt) /\
    m' !! PreimageKey Keccak256KeyType (Keccak256Hash Mock.env [Byte.xde; Byte.xad; Byte.xbe; Byte.xef])
      = Some [Byte.xde; Byte.xad; Byte.xbe; Byte.xef] /\
    m' !! PreimageKey KZGPointEvaluationKeyType
            (Keccak256Hash Mock.env [Byte.xde; Byte.xad; Byte.xbe; Byte.xef]) = Some [Byte.x00].
Proof.
  destruct (prefetch_kzg_point_evaluation Mock.env Mock.kzgHint
              [Byte.xde; Byte.xad; Byte.xbe; Byte.xef] ∅ eq_refl)
    as [m' [Hrun [Hk [Hv _]]]].
  exists m'. split; [exact Hrun|]. split; [exact Hk | exact Hv].
Defined.

(** The stand-in for the hash tells the field elements of the mocked
    commitment apart. *)
Lemma Mock_field_hashes_distinct :
  field_hashes_distinct Mock.env (KZGCommitment Mock.sidecar).
Proof.
  intros i j Hi Hj Heq. unfold BlobTxFieldElementsPerBlob in *.
  change (skipn 1 (Keccak256Hash Mock.env (blobKey_at (KZGCommitment Mock.sidecar) i)))
    with (make 23 ++ u64_be (N.of_nat i)) in Heq.
  change (skipn 1 (Keccak256Hash Mock.env (blobKey_at (KZGCommitment Mock.sidecar) j)))
    with (make 23 ++ u64_be (N.of_nat j)) in Heq.
  apply app_inv_head in Heq. apply u64_be_inj in Heq; [lia | |].
  - apply N.lt_trans with (N.of_nat 4096); [lia | reflexivity].
  - apply N.lt_trans with (N.of_nat 4096); [lia | reflexivity].
Qed.

(** C2 at work: the blob hint against the mocked beacon node. *)
Lemma prefetch_blob_expansion_witness :
  let V := Byte.x01 :: repeat Byte.x00 31 in
  let C := KZGCommitment Mock.sidecar in
  exists m' : MemKV,
    prefetch Mock.env Mock.blobHint ∅ = (m', Ok tt) /\
    m' !! PreimageKey Sha256KeyType V = Some C /\
    m' !! PreimageKey BlobKeyType
            (Keccak256Hash Mock.env (C ++ repeat Byte.x00 24 ++ u64_be 4095))
      = Some (slice (4095 * 32) (4096 * 32) (Blob Mock.sidecar)) /\
    length (blob_keys Mock.env V C) = (1 + 4096 * 2)%nat /\
    NoDup (blob_keys Mock.env V C).
Proof.
  intros V C.
  destruct (prefetch_blob_expansion Mock.env Mock.blobHint
              (Byte.x01 :: repeat Byte.x00 47) Mock.sidecar ∅
              eq_refl eq_refl eq_refl eq_refl Mock_field_hashes_distinct)
    as [m' [Hrun [Hsha [Hfield [Hlen [Hnd _]]]]]].
  exists m'. split; [exact Hrun|]. split; [exact Hsha|].
  split; [|split; [exact Hlen | exact Hnd]].
  apply (Hfield 4095%nat). lia.
Defined.

(** * Further properties of the code *)

(** ** Hexadecimal strings *)

Lemma hex_digits_of_byte (v : byte) :
  exists a b,
    Hex.fromHexChar (HexEncoding.hexdigit (N.shiftr (Byte.to_N v) 4)) = Some a /\
    Hex.fromHexChar (HexEncoding.hexdigit (N.land (Byte.to_N v) 15)) = Some b /\
    byte_of_N (N.lor (N.shiftl a 4) b) = v.
Proof.
  destruct v; do 2 eexists; (split; [|split]); vm_compute; reflexivity.
Qed.

Lemma DecodeString_EncodeToString (b : bytes) :
  Hex.DecodeString (HexEncoding.EncodeToString b) = (b, None).
Proof.
  induction b as [|v b IH]; [reflexivity|].
  cbn [HexEncoding.EncodeToString Hex.DecodeString].
  destruct (hex_digits_of_byte v) as [hi [lo [Hhi [Hlo Hv]]]].
  rewrite Hhi, Hlo, IH, Hv. reflexivity.
Qed.

Lemma DecodeString_length_bound (n : nat) : forall s b,
  (String.length s <= n)%nat ->
  Hex.DecodeString s = (b, None) -> String.length s = (2 * length b)%nat.
Proof.
  induction n as [|n IH]; intros s b Hn Hdec.
  - destruct s; [|simpl in Hn; lia]. injection Hdec as <-. reflexivity.
  - destruct s as [|p [|q rest]].
    + injection Hdec as <-. reflexivity.
    + cbn [Hex.DecodeString] in Hdec. destruct (Hex.fromHexChar p); discriminate.
    + cbn [Hex.DecodeString] in Hdec.
      destruct (Hex.fromHexChar p); [|discriminate].
      destruct (Hex.fromHexChar q); [|discriminate].
      destruct (Hex.DecodeString rest) as [out err] eqn:Hrest.
      injection Hdec as <- ->.
      cbn [String.length length] in *.
      rewrite (IH rest out) by (lia || exact Hrest). lia.
Qed.

Lemma DecodeString_length s b :
  Hex.DecodeString s = (b, None) -> String.length s = (2 * length b)%nat.
Proof. apply (DecodeString_length_bound (String.length s)). lia. Qed.

(** ** Cutting at the first space *)

Lemma append_length (a b : string) :
  String.length (a ++ b)%string = (String.length a + String.length b)%nat.
Proof. induction a as [|c a IH]; [reflexivity|]. rewrite append_String. simpl. lia. Qed.

Lemma substring_all (s : string) : String.substring 0 (String.length s) s = s.
Proof. induction s as [|c s IH]; [reflexivity|]. simpl. rewrite IH. reflexivity. Qed.

Lemma drop_append (a b : string) : Strings.drop (String.length a) (a ++ b)%string = b.
Proof.
  unfold Strings.drop. rewrite append_length.
  replace (String.length a + String.length b - String.length a)%nat
    with (String.length b) by lia.
  induction a as [|c a IH]; [apply substring_all|].
  rewrite append_String. simpl. exact IH.
Qed.

Lemma prefix_empty (s : string) : String.prefix "" s = true.
Proof. destruct s; reflexivity. Qed.

Lemma Index_space_cons c s :
  Strings.Index (String c s) " " =
    if Ascii.eqb c " " then Some 0%nat else option_map Datatypes.S (Strings.Index s " ").
Proof.
  cbn [Strings.Index String.prefix].
  destruct (ascii_dec " " c) as [<-|Hne].
  - rewrite prefix_empty. reflexivity.
  - destruct (Ascii.eqb c " ") eqn:Heq; [|reflexivity].
    apply Ascii.eqb_eq in Heq. congruence.
Qed.

Lemma Cut_space_cons c s :
  Strings.Cut (String c s) " " =
    if Ascii.eqb c " " then ("", s, true)
    else let '(before, after, found) := Strings.Cut s " " in (String c before, after, found).
Proof.
  unfold Strings.Cut. rewrite Index_space_cons.
  destruct (Ascii.eqb c " ").
  - cbn [String.substring String.length Nat.add Nat.sub].
    rewrite Nat.sub_0_r, substring_all. reflexivity.
  - destruct (Strings.Index s " ") as [i|]; reflexivity.
Qed.

Lemma Contains_space_cons c s :
  Strings.Contains (String c s) " " = Ascii.eqb c " " || Strings.Contains s " ".
Proof.
  unfold Strings.Contains. rewrite Index_space_cons.
  destruct (Ascii.eqb c " "); [reflexivity|].
  destruct (Strings.Index s " "); reflexivity.
Qed.

(** [strings.Cut] at the first space: what it returns, read backwards. *)
Lemma Cut_space_inv s : forall before after found,
  Strings.Cut s " " = (before, after, found) ->
  Strings.Contains before " " = false /\
  if found then s = (before ++ " " ++ after)%string
  else before = s /\ after = ""%string.
Proof.
  induction s as [|c s IH]; intros before after found Hcut.
  - injection Hcut as <- <- <-. repeat split; reflexivity.
  - rewrite Cut_space_cons in Hcut. destruct (Ascii.eqb c " ") eqn:Hc.
    + injection Hcut as <- <- <-. split; [reflexivity|].
      apply Ascii.eqb_eq in Hc. subst c. reflexivity.
    + destruct (Strings.Cut s " ") as [[b0 a0] f0].
      injection Hcut as <- <- <-.
      destruct (IH b0 a0 f0 eq_refl) as [Hno Hs].
      split; [rewrite Contains_space_cons, Hc, Hno; reflexivity|].
      destruct f0.
      * rewrite append_String. congruence.
      * destruct Hs as [-> ->]. split; reflexivity.
Qed.

(** ... and forwards. *)
Lemma Cut_space_append before : forall after,
  Strings.Contains before " " = false ->
  Strings.Cut (before ++ " " ++ after)%string " " = (before, after, true).
Proof.
  induction before as [|c before IH]; intros after Hno.
  - rewrite append_empty. change (" " ++ after)%string with (String " " after).
    rewrite Cut_space_cons. reflexivity.
  - rewrite append_String, Cut_space_cons.
    rewrite Contains_space_cons in Hno. apply orb_false_iff in Hno as [Hc Hno].
    rewrite Hc, (IH after Hno). reflexivity.
Qed.

Lemma Decode_0x_EncodeToString (b : bytes) :
  Hex.Decode ("0x" ++ HexEncoding.EncodeToString b)%string = Ok b.
Proof.
  unfold Hex.Decode.
  change ("0x" ++ HexEncoding.EncodeToString b)%string
    with (String "0" (String "x" (HexEncoding.EncodeToString b))).
  cbn [String.eqb Hex.has0xPrefix Ascii.eqb Bool.eqb andb orb negb].
  change (String "0" (String "x" (HexEncoding.EncodeToString b)))
    with ("0x" ++ HexEncoding.EncodeToString b)%string.
  rewrite (drop_append "0x"), DecodeString_EncodeToString. reflexivity.
Qed.

(** ** Hints *)

(** Parsing a hint put together from its parts. *)
Lemma parseHint_append (hintType : string) (payload : bytes) :
  Strings.Contains hintType " " = false ->
  parseHint (hintType ++ " " ++ "0x" ++ HexEncoding.EncodeToString payload)%string
    = Ok (hintType, payload).
Proof.
  intros Hno. unfold parseHint.
  rewrite (Cut_space_append hintType _ Hno). cbn [negb].
  rewrite Decode_0x_EncodeToString. reflexivity.
Qed.

(** X1. [parseHint] reads back a hint in wire form: a type without a space,
    a space, and the payload as [0x] followed by its hexadecimal digits
    give the type and the payload. *)
Theorem parseHint_wire_form (hintType : string) (payload : bytes) :
  Strings.Contains hintType " " = false ->
  parseHint (hintType ++ " " ++ "0x" ++ HexEncoding.EncodeToString payload)%string
    = Ok (hintType, payload).
Proof. exact (parseHint_append hintType payload). Qed.

Lemma parseHint_wire_form_witness :
  Strings.Contains HintL1BlockHeader " " = false /\
  parseHint (HintL1BlockHeader ++ " " ++ "0x" ++
             HexEncoding.EncodeToString [Byte.xde; Byte.xad])%string
    = Ok (HintL1BlockHeader, [Byte.xde; Byte.xad]).
Proof.
  split; [reflexivity|]. apply parseHint_wire_form. reflexivity.
Defined.

(** What an accepted hint looks like. *)
Lemma parseHint_inv (hint hintType : string) (payload : bytes) :
  parseHint hint = Ok (hintType, payload) ->
  Strings.Contains hintType " " = false /\
  (exists rest, hint = (hintType ++ " " ++ rest)%string /\ Hex.Decode rest = Ok payload) /\
  String.length hint = (String.length hintType + 3 + 2 * length payload)%nat.
Proof.
  unfold parseHint. intros Hparse.
  destruct (Strings.Cut hint " ") as [[before after] found] eqn:Hcut.
  destruct found; cbn [negb] in Hparse; [|discriminate].
  destruct (Hex.Decode after) as [b|e] eqn:Hdec; [|discriminate].
  injection Hparse as -> ->.
  apply Cut_space_inv in Hcut as [Hno Hs]. split; [exact Hno|]. split; [eauto|].
  subst hint. rewrite !append_length. cbn [String.length].
  unfold Hex.Decode in Hdec.
  destruct (String.eqb after ""); [discriminate|].
  destruct (Hex.has0xPrefix after) eqn:H0x; cbn [negb] in Hdec; [|discriminate].
  destruct after as [|c0 [|c1 digits]]; try discriminate.
  change (Strings.drop 2 (String c0 (String c1 digits)))
    with (Strings.drop (String.length "0x") ("0x" ++ digits)%string) in Hdec.
  rewrite drop_append in Hdec.
  destruct (Hex.DecodeString digits) as [out [err|]] eqn:Hd; [discriminate|].
  injection Hdec as ->. apply DecodeString_length in Hd.
  cbn [String.length]. lia.
Qed.

(** X2. A hint that [parseHint] accepts is cut at its first space: the type
    it returns holds no space, the hint is the type, a space and a rest
    that [hexutil.Decode] reads as the payload, and the hint is exactly
    three characters plus two per payload byte longer than its type. *)
Theorem parseHint_sound (hint hintType : string) (payload : bytes) :
  parseHint hint = Ok (hintType, payload) ->
  Strings.Contains hintType " " = false /\
  (exists rest, hint = (hintType ++ " " ++ rest)%string /\ Hex.Decode rest = Ok payload) /\
  String.length hint = (String.length hintType + 3 + 2 * length payload)%nat.
Proof. exact (parseHint_inv hint hintType payload). Qed.

Lemma parseHint_sound_witness :
  parseHint "l1-blob 0XDEadbeeF" = Ok ("l1-blob", [Byte.xde; Byte.xad; Byte.xbe; Byte.xef]) /\
  String.length "l1-blob 0XDEadbeeF" = (String.length "l1-blob" + 3 + 2 * 4)%nat.
Proof.
  assert (Hp : parseHint "l1-blob 0XDEadbeeF" =
               Ok ("l1-blob", [Byte.xde; Byte.xad; Byte.xbe; Byte.xef])) by reflexivity.
  split; [exact Hp|]. apply (parseHint_sound _ _ _ Hp).
Defined.

(** ** The prefetcher over a store that keeps its contract *)

Lemma MemKV_lawful : kv_lawful MemKV.
Proof.
  split.
  - intros s k v. reflexivity.
  - intros s k v. cbn [kvGet kvPut MemKV_KV fst]. rewrite lookup_insert_eq. reflexivity.
  - intros s k k' v Hne. cbn [kvGet kvPut MemKV_KV fst].
    rewrite lookup_insert_ne by congruence. reflexivity.
Qed.

Lemma PreimageKey_prefetched t h : t <> LocalKeyType -> prefetched_tag (PreimageKey t h).
Proof. intros Ht. exists t. split; [exact Ht | reflexivity]. Qed.

Section LawfulStore.

Context {S : Type} `{KV S}.
Hypothesis Hlaw : kv_lawful S.
Variable env : Env.

Lemma apply_puts_app L1 L2 (s : S) :
  apply_puts (L1 ++ L2) s = apply_puts L2 (apply_puts L1 s).
Proof. apply fold_left_app. Qed.

Lemma apply_puts_cons k v L (s : S) :
  apply_puts ((k, v) :: L) s = apply_puts L (kvPut s k v).1.
Proof. reflexivity. Qed.

(** Reading after a sequence of writes: a key that was not written reads
    as before, a key that was written reads as one of the values written
    under it. *)
Lemma apply_puts_get L : forall (s : S) k,
  ((k ∉ map fst L) /\ kvGet (apply_puts L s) k = kvGet s k) \/
  (exists v, ((k, v) ∈ L) /\ kvGet (apply_puts L s) k = Ok v).
Proof.
  induction L as [|[k0 v0] L IH]; intros s k.
  - left. split; [apply not_elem_of_nil | reflexivity].
  - rewrite apply_puts_cons.
    destruct (IH (kvPut s k0 v0).1 k) as [[Hk Hget]|[v [Hin Hget]]].
    + destruct (decide (k = k0)) as [->|Hne].
      * right. exists v0. split; [left|].
        rewrite Hget. apply (kvGet_put_eq S Hlaw).
      * left. split.
        -- cbn [map fst]. apply not_elem_of_cons. split; assumption.
        -- rewrite Hget. apply (kvGet_put_ne S Hlaw). exact Hne.
    + right. exists v. split; [right; exact Hin | exact Hget].
Qed.

Lemma Put_runs_as k v : runs_as (S := S) (Put k v) [(k, v)] (Ok tt).
Proof.
  intros s. unfold Put. pose proof (kvPut_ok S Hlaw s k v) as Hok.
  cbn [apply_puts fold_left fst snd].
  destruct (kvPut s k v) as [s' [e|]]; [discriminate | reflexivity].
Qed.

Lemma wrapping_Put_runs_as format k v :
  runs_as (S := S) (wrapping format (Put k v)) [(k, v)] (Ok tt).
Proof.
  intros s. unfold wrapping. rewrite Put_runs_as. reflexivity.
Qed.

Lemma fail_runs_as e : runs_as (S := S) (fail e) [] (Err e).
Proof. intros s. reflexivity. Qed.

Lemma ret_runs_as : runs_as (S := S) (ret tt) [] (Ok tt).
Proof. intros s. reflexivity. Qed.

Lemma bind_runs_as (c k : M S unit) L1 L2 r :
  runs_as c L1 (Ok tt) -> runs_as k L2 r -> runs_as (bind c (fun _ => k)) (L1 ++ L2) r.
Proof.
  intros Hc Hk s. unfold bind. rewrite Hc, Hk, apply_puts_app. reflexivity.
Qed.

Lemma storeNodes_runs_as nodes :
  runs_as (S := S) (storeNodes env nodes) (node_writes env nodes) (Ok tt).
Proof.
  induction nodes as [|node rest IH]; [apply ret_runs_as|].
  cbn [storeNodes node_writes map].
  apply (bind_runs_as _ _ [_]); [apply wrapping_Put_runs_as | exact IH].
Qed.

Lemma storeFieldElements_runs_as sidecar n : forall i blobKey,
  runs_as (S := S) (storeFieldElements env n i blobKey sidecar)
    (fieldElement_writes env n i blobKey sidecar) (Ok tt).
Proof.
  induction n as [|n IH]; intros i blobKey; [apply ret_runs_as|].
  cbn [storeFieldElements fieldElement_writes].
  apply (bind_runs_as _ _ [_]); [apply Put_runs_as|].
  apply (bind_runs_as _ _ [_]); [apply Put_runs_as|].
  apply IH.
Qed.

Lemma node_writes_prefetched nodes :
  Forall (fun kv => prefetched_tag kv.1) (node_writes env nodes).
Proof.
  induction nodes as [|node rest IH]; constructor; [|exact IH].
  apply PreimageKey_prefetched. discriminate.
Qed.

Lemma fieldElement_writes_prefetched sidecar n : forall i blobKey,
  Forall (fun kv => prefetched_tag kv.1) (fieldElement_writes env n i blobKey sidecar).
Proof.
  induction n as [|n IH]; intros i blobKey; [constructor|].
  cbn [fieldElement_writes]. constructor; [|constructor; [|apply IH]];
    apply PreimageKey_prefetched; discriminate.
Qed.

Lemma fail_outcome e : prefetch_outcome (fail e).
Proof.
  exists [], (Err e). split; [apply fail_runs_as|]. split; [reflexivity | constructor].
Qed.

Lemma writes_outcome c L :
  runs_as c L (Ok tt) -> Forall (fun kv => prefetched_tag kv.1) L -> prefetch_outcome c.
Proof.
  intros Hc HL. exists L, (Ok tt). split; [exact Hc|]. split; [congruence | exact HL].
Qed.

Lemma storeTrieNodes_outcome values : prefetch_outcome (storeTrieNodes env values).
Proof.
  unfold storeTrieNodes. destruct (WriteTrie env values) as [root nodes].
  eapply writes_outcome; [apply storeNodes_runs_as | apply node_writes_prefetched].
Qed.

Lemma prefetch_has_outcome hint : prefetch_outcome (prefetch env hint).
Proof.
  unfold prefetch.
  destruct (parseHint hint) as [[hintType hintBytes]|err]; [|apply fail_outcome].
  destruct (String.eqb hintType HintL1BlockHeader).
  { destruct (negb _); [apply fail_outcome|].
    destruct (InfoByHash _ _) as [header|err]; [|apply fail_outcome].
    destruct (HeaderRLP env header) as [data|err]; [|apply fail_outcome].
    eapply writes_outcome; [apply Put_runs_as|].
    constructor; [apply PreimageKey_prefetched; discriminate | constructor]. }
  destruct (String.eqb hintType HintL1Transactions).
  { destruct (negb _); [apply fail_outcome|].
    destruct (InfoAndTxsByHash _ _) as [[info txs]|err]; [|apply fail_outcome].
    unfold storeTransactions.
    destruct (EncodeTransactions env txs) as [opaqueTxs|err]; [|apply fail_outcome].
    apply storeTrieNodes_outcome. }
  destruct (String.eqb hintType HintL1Receipts).
  { destruct (negb _); [apply fail_outcome|].
    destruct (FetchReceipts _ _) as [[info receipts]|err]; [|apply fail_outcome].
    unfold storeReceipts.
    destruct (EncodeReceipts env receipts) as [opaqueReceipts|err]; [|apply fail_outcome].
    apply storeTrieNodes_outcome. }
  destruct (String.eqb hintType HintL1Blob).
  { destruct (negb _); [apply fail_outcome|].
    destruct (GetBlobSidecars _ _ _) as [sidecars|err]; [|apply fail_outcome].
    destruct sidecars as [|sidecar [|sidecar' rest]];
      [apply fail_outcome | | apply fail_outcome].
    eapply writes_outcome.
    - eapply bind_runs_as; [apply Put_runs_as | apply storeFieldElements_runs_as].
    - constructor; [apply PreimageKey_prefetched; discriminate|].
      apply fieldElement_writes_prefetched. }
  destruct (String.eqb hintType HintL1KZGPointEvaluation).
  { eapply writes_outcome.
    - eapply bind_runs_as; apply Put_runs_as.
    - constructor; [|constructor; [|constructor]];
        apply PreimageKey_prefetched; discriminate. }
  apply fail_outcome.
Qed.

End LawfulStore.

Section PrefetchOnLawfulStore.

Context {S : Type} `{KV S}.
Variable env : Env.

(** X3. On a store that keeps its contract, a prefetch that returns an
    error has written nothing: the store is the one it started from. *)
Theorem prefetch_error_leaves_store (Hlaw : kv_lawful S) (hint : string) (s s' : S) (e : error) :
  prefetch env hint s = (s', Err e) -> s' = s.
Proof.
  intros Hrun. destruct (prefetch_has_outcome Hlaw env hint) as [L [r [Hruns [Hfail _]]]].
  rewrite Hruns in Hrun. injection Hrun as <- ->.
  rewrite Hfail by discriminate. reflexivity.
Qed.

(** X4. A prefetch succeeds only under a hint of one of the five types with
    a payload of the length of its type: 32 bytes for a block header, a
    transaction list or a receipt list, 48 bytes for a blob, any length for
    a point evaluation. *)
Theorem prefetch_ok_hint_form (hint : string) (s s' : S) :
  prefetch env hint s = (s', Ok tt) ->
  exists hintType hintBytes,
    parseHint hint = Ok (hintType, hintBytes) /\
    ((In hintType [HintL1BlockHeader; HintL1Transactions; HintL1Receipts] /\
      length hintBytes = 32%nat) \/
     (hintType = HintL1Blob /\ length hintBytes = 48%nat) \/
     hintType = HintL1KZGPointEvaluation).
Proof.
  unfold prefetch. intros Hrun.
  destruct (parseHint hint) as [[hintType hintBytes]|err]; [|discriminate].
  exists hintType, hintBytes. split; [reflexivity|].
  destruct (String.eqb hintType HintL1BlockHeader) eqn:E1.
  { apply String.eqb_eq in E1.
    destruct (length hintBytes =? 32)%nat eqn:El; cbn [negb] in Hrun; [|discriminate].
    apply Nat.eqb_eq in El. left. split; [left; congruence | exact El]. }
  destruct (String.eqb hintType HintL1Transactions) eqn:E2.
  { apply String.eqb_eq in E2.
    destruct (length hintBytes =? 32)%nat eqn:El; cbn [negb] in Hrun; [|discriminate].
    apply Nat.eqb_eq in El. left. split; [right; left; congruence | exact El]. }
  destruct (String.eqb hintType HintL1Receipts) eqn:E3.
  { apply String.eqb_eq in E3.
    destruct (length hintBytes =? 32)%nat eqn:El; cbn [negb] in Hrun; [|discriminate].
    apply Nat.eqb_eq in El. left. split; [right; right; left; congruence | exact El]. }
  destruct (String.eqb hintType HintL1Blob) eqn:E4.
  { apply String.eqb_eq in E4.
    destruct (length hintBytes =? 48)%nat eqn:El; cbn [negb] in Hrun; [|discriminate].
    apply Nat.eqb_eq in El. right; left. split; assumption. }
  destruct (String.eqb hintType HintL1KZGPointEvaluation) eqn:E5.
  { apply String.eqb_eq in E5. right; right. exact E5. }
  discriminate.
Qed.

(** X5. On a store that keeps its contract, a prefetch changes only keys
    that carry one of the prefetcher's tags (Keccak256, Sha256, blob, point
    evaluation): every other key, and so every local key, reads after the
    prefetch as it read before. *)
Theorem prefetch_touches_its_tags_only
    (Hlaw : kv_lawful S) (hint : string) (s s' : S) (r : result unit) (k : Hash) :
  prefetch env hint s = (s', r) ->
  (~ prefetched_tag k -> kvGet s' k = kvGet s k) /\
  (key_tag k = Some (tag LocalKeyType) -> kvGet s' k = kvGet s k).
Proof.
  intros Hrun. destruct (prefetch_has_outcome Hlaw env hint) as [L [r' [Hruns [_ Htags]]]].
  rewrite Hruns in Hrun. injection Hrun as <- ->.
  assert (Hother : ~ prefetched_tag k -> kvGet (apply_puts L s) k = kvGet s k).
  { intros Hk. destruct (apply_puts_get Hlaw L s k) as [[_ Hget]|[v [Hin _]]]; [exact Hget|].
    exfalso. apply Hk. rewrite Forall_forall in Htags. apply (Htags (k, v)).
    apply list_elem_of_In. exact Hin. }
  split; [exact Hother|].
  intros Hlocal. apply Hother. intros [t [Ht Htag]].
  rewrite Hlocal in Htag. injection Htag as Htag. destruct t; (discriminate || congruence).
Qed.

(** X6. On a store that keeps its contract, a prefetch removes nothing: a
    key that could be read before the prefetch can be read after it. *)
Theorem prefetch_keeps_keys
    (Hlaw : kv_lawful S) (hint : string) (s s' : S) (r : result unit) (k : Hash) (v : bytes) :
  prefetch env hint s = (s', r) ->
  kvGet s k = Ok v ->
  exists v', kvGet s' k = Ok v'.
Proof.
  intros Hrun Hget. destruct (prefetch_has_outcome Hlaw env hint) as [L [r' [Hruns _]]].
  rewrite Hruns in Hrun. injection Hrun as <- ->.
  destruct (apply_puts_get Hlaw L s k) as [[_ Hsame]|[v' [_ Hnew]]].
  - exists v. rewrite Hsame. exact Hget.
  - exists v'. exact Hnew.
Qed.

(** The block-header case on a store that keeps its contract. *)
Lemma prefetch_block_header_run
    (Hlaw : kv_lawful S) (hint : string) (hash : Hash) (header : BlockInfo env)
    (data : bytes) (s : S) :
  parseHint hint = Ok (HintL1BlockHeader, hash) ->
  length hash = 32%nat ->
  InfoByHash (l1Fetcher env) hash = Ok header ->
  HeaderRLP env header = Ok data ->
  exists s',
    prefetch env hint s = (s', Ok tt) /\
    kvGet s' (PreimageKey Keccak256KeyType hash) = Ok data /\
    (forall k, k <> PreimageKey Keccak256KeyType hash -> kvGet s' k = kvGet s k).
Proof.
  intros Hparse Hlen Hinfo Hrlp. unfold prefetch. rewrite Hparse.
  change (String.eqb HintL1BlockHeader HintL1BlockHeader) with true.
  cbv iota. rewrite Hlen. change (negb (32 =? 32)%nat) with false. cbv iota.
  rewrite Hinfo, Hrlp. rewrite (Put_runs_as Hlaw).
  eexists. split; [reflexivity|]. cbn [apply_puts fold_left fst snd]. split.
  - apply (kvGet_put_eq S Hlaw).
  - intros k Hk. apply (kvGet_put_ne S Hlaw). exact Hk.
Qed.

(** X7. A block-header prefetch writes the RLP of the fetched header under
    the Keccak256 key of the block hash of the hint, succeeds, and changes
    no other key. *)
Theorem prefetch_block_header
    (Hlaw : kv_lawful S) (hint : string) (hash : Hash) (header : BlockInfo env)
    (data : bytes) (s : S) :
  parseHint hint = Ok (HintL1BlockHeader, hash) ->
  length hash = 32%nat ->
  InfoByHash (l1Fetcher env) hash = Ok header ->
  HeaderRLP env header = Ok data ->
  exists s',
    prefetch env hint s = (s', Ok tt) /\
    kvGet s' (PreimageKey Keccak256KeyType hash) = Ok data /\
    (forall k, k <> PreimageKey Keccak256KeyType hash -> kvGet s' k = kvGet s k).
Proof. exact (prefetch_block_header_run Hlaw hint hash header data s). Qed.

(** After [storeTrieNodes], every node can be read under the Keccak256 key
    of its hash, and what is read has that same key. *)
Lemma storeTrieNodes_stores_nodes (Hlaw : kv_lawful S) (values : list bytes) (s : S) :
  exists s',
    storeTrieNodes env values s = (s', Ok tt) /\
    forall node, In node (WriteTrie env values).2 ->
      exists node',
        In node' (WriteTrie env values).2 /\
        PreimageKey Keccak256KeyType (Keccak256Hash env node') =
          PreimageKey Keccak256KeyType (Keccak256Hash env node) /\
        kvGet s' (PreimageKey Keccak256KeyType (Keccak256Hash env node)) = Ok node'.
Proof.
  unfold storeTrieNodes. destruct (WriteTrie env values) as [root nodes]. cbn [snd].
  rewrite (storeNodes_runs_as Hlaw). eexists. split; [reflexivity|].
  intros node Hnode.
  destruct (apply_puts_get Hlaw (node_writes env nodes) s
              (PreimageKey Keccak256KeyType (Keccak256Hash env node)))
    as [[Hnot _]|[v [Hin Hget]]].
  - exfalso. apply Hnot. apply list_elem_of_In. unfold node_writes.
    rewrite map_map. cbn [fst]. apply in_map_iff. exists node. split; [reflexivity|exact Hnode].
  - apply list_elem_of_In in Hin. unfold node_writes in Hin.
    apply in_map_iff in Hin as [node' [Heq Hin]]. injection Heq as Hkey Hv. subst v.
    exists node'. split; [exact Hin|]. split; [|exact Hget].
    unfold PreimageKey. rewrite Hkey. reflexivity.
Qed.

(** X8. A transactions prefetch encodes the fetched transactions, builds
    their trie and stores every trie node under the Keccak256 key of the
    node's hash: each node's key reads as a node with that key. *)
Theorem prefetch_transactions
    (Hlaw : kv_lawful S) (hint : string) (hash : Hash) (info : BlockInfo env)
    (txs : Transactions env) (opaqueTxs : list bytes) (s : S) :
  parseHint hint = Ok (HintL1Transactions, hash) ->
  length hash = 32%nat ->
  InfoAndTxsByHash (l1Fetcher env) hash = Ok (info, txs) ->
  EncodeTransactions env txs = Ok opaqueTxs ->
  exists s',
    prefetch env hint s = (s', Ok tt) /\
    forall node, In node (WriteTrie env opaqueTxs).2 ->
      exists node',
        In node' (WriteTrie env opaqueTxs).2 /\
        PreimageKey Keccak256KeyType (Keccak256Hash env node') =
          PreimageKey Keccak256KeyType (Keccak256Hash env node) /\
        kvGet s' (PreimageKey Keccak256KeyType (Keccak256Hash env node)) = Ok node'.
Proof.
  intros Hparse Hlen Hfetch Henc. unfold prefetch. rewrite Hparse.
  change (String.eqb HintL1Transactions HintL1BlockHeader) with false.
  change (String.eqb HintL1Transactions HintL1Transactions) with true.
  cbv iota. rewrite Hlen. change (negb (32 =? 32)%nat) with false. cbv iota.
  rewrite Hfetch. unfold storeTransactions. rewrite Henc.
  apply (storeTrieNodes_stores_nodes Hlaw).
Qed.

(** X9. A receipts prefetch does the same with the encoded receipts. *)
Theorem prefetch_receipts
    (Hlaw : kv_lawful S) (hint : string) (hash : Hash) (info : BlockInfo env)
    (receipts : Receipts env) (opaqueReceipts : list bytes) (s : S) :
  parseHint hint = Ok (HintL1Receipts, hash) ->
  length hash = 32%nat ->
  FetchReceipts (l1Fetcher env) hash = Ok (info, receipts) ->
  EncodeReceipts env receipts = Ok opaqueReceipts ->
  exists s',
    prefetch env hint s = (s', Ok tt) /\
    forall node, In node (WriteTrie env opaqueReceipts).2 ->
      exists node',
        In node' (WriteTrie env opaqueReceipts).2 /\
        PreimageKey Keccak256KeyType (Keccak256Hash env node') =
          PreimageKey Keccak256KeyType (Keccak256Hash env node) /\
        kvGet s' (PreimageKey Keccak256KeyType (Keccak256Hash env node)) = Ok node'.
Proof.
  intros Hparse Hlen Hfetch Henc. unfold prefetch. rewrite Hparse.
  change (String.eqb HintL1Receipts HintL1BlockHeader) with false.
  change (String.eqb HintL1Receipts HintL1Transactions) with false.
  change (String.eqb HintL1Receipts HintL1Receipts) with true.
  cbv iota. rewrite Hlen. change (negb (32 =? 32)%nat) with false. cbv iota.
  rewrite Hfetch. unfold storeReceipts. rewrite Henc.
  apply (storeTrieNodes_stores_nodes Hlaw).
Qed.

End PrefetchOnLawfulStore.

(** ** The server loop *)

Section GetPreimageFacts.

Context {S : Type} `{KV S}.
Variable env : Env.

Lemma GetPreimage_loop_keeps_hint fuel : forall (p p' : @Prefetcher S) key got r,
  GetPreimage_loop env fuel p key got = Some (p', r) -> lastHint p' = lastHint p.
Proof.
  induction fuel as [|fuel IH]; intros p p' key got r Hrun;
    destruct (retries (lastHint p) got) eqn:Hr.
  - rewrite GetPreimage_loop_out_of_fuel in Hrun by assumption. discriminate.
  - rewrite GetPreimage_loop_exit in Hrun by assumption. injection Hrun as <- _. reflexivity.
  - rewrite GetPreimage_loop_step in Hrun by assumption.
    destruct (prefetch env (lastHint p) (kvStore p)) as [s' [[]|e]].
    + apply IH in Hrun. exact Hrun.
    + injection Hrun as <- _. reflexivity.
  - rewrite GetPreimage_loop_exit in Hrun by assumption. injection Hrun as <- _. reflexivity.
Qed.

(** X11. [GetPreimage] never changes the recorded hint, however often it
    prefetches and whatever it returns. *)
Theorem GetPreimage_keeps_hint (fuel : nat) (p p' : @Prefetcher S) (key : Hash) (r : result bytes) :
  GetPreimage env fuel p key = Some (p', r) -> lastHint p' = lastHint p.
Proof. unfold GetPreimage. apply GetPreimage_loop_keeps_hint. Qed.

Lemma GetPreimage_loop_error_shape fuel : forall (p p' : @Prefetcher S) key got e,
  lastHint p <> "" ->
  GetPreimage_loop env fuel p key got = Some (p', Err e) ->
  (exists e', e = Errorf "prefetch failed: %w" (Some e')) \/ errors_Is_ErrNotFound e = false.
Proof.
  induction fuel as [|fuel IH]; intros p p' key got e Hhint Hrun;
    destruct (retries (lastHint p) got) eqn:Hr.
  - rewrite GetPreimage_loop_out_of_fuel in Hrun by assumption. discriminate.
  - rewrite GetPreimage_loop_exit in Hrun by assumption. injection Hrun as _ ->.
    right. cbn [retries] in Hr. apply andb_false_iff in Hr as [Hr|Hr]; [exact Hr|].
    apply negb_false_iff, String.eqb_eq in Hr. contradiction.
  - rewrite GetPreimage_loop_step in Hrun by assumption.
    destruct (prefetch env (lastHint p) (kvStore p)) as [s' [[]|e']].
    + apply IH in Hrun; [exact Hrun | exact Hhint].
    + injection Hrun as _ <-. left. eauto.
  - rewrite GetPreimage_loop_exit in Hrun by assumption. injection Hrun as _ ->.
    right. cbn [retries] in Hr. apply andb_false_iff in Hr as [Hr|Hr]; [exact Hr|].
    apply negb_false_iff, String.eqb_eq in Hr. contradiction.
Qed.

(** X12. With a hint recorded, [GetPreimage] never hands the store's
    [ErrNotFound] to its caller: an error it returns is either a prefetch
    error wrapped with "prefetch failed", or an error of the store that is
    not [ErrNotFound]. *)
Theorem GetPreimage_error_shape (fuel : nat) (p p' : @Prefetcher S) (key : Hash) (e : error) :
  lastHint p <> "" ->
  GetPreimage env fuel p key = Some (p', Err e) ->
  (exists e', e = Errorf "prefetch failed: %w" (Some e')) \/ errors_Is_ErrNotFound e = false.
Proof. unfold GetPreimage. apply GetPreimage_loop_error_shape. Qed.

(** One prefetch brings the header; after it the store answers. *)
Lemma GetPreimage_fetches_header
    (Hlaw : kv_lawful S) (p : @Prefetcher S) (hash : Hash) (header : BlockInfo env)
    (data : bytes) (err : error) :
  parseHint (lastHint p) = Ok (HintL1BlockHeader, hash) ->
  length hash = 32%nat ->
  InfoByHash (l1Fetcher env) hash = Ok header ->
  HeaderRLP env header = Ok data ->
  kvGet (kvStore p) (PreimageKey Keccak256KeyType hash) = Err err ->
  errors_Is_ErrNotFound err = true ->
  exists p1,
    GetPreimage env 1 p (PreimageKey Keccak256KeyType hash) = Some (p1, Ok data) /\
    GetPreimage env 0 p1 (PreimageKey Keccak256KeyType hash) = Some (p1, Ok data).
Proof.
  intros Hparse Hlen Hinfo Hrlp Hget Hnf.
  assert (Hhint : String.eqb (lastHint p) "" = false).
  { destruct (String.eqb (lastHint p) "") eqn:E; [|reflexivity].
    apply String.eqb_eq in E. rewrite E in Hparse. discriminate. }
  destruct (prefetch_block_header_run env Hlaw (lastHint p) hash header data (kvStore p)
              Hparse Hlen Hinfo Hrlp) as [s' [Hrun [Hnew _]]].
  exists (with_store p s'). unfold GetPreimage. split.
  - rewrite Hget. rewrite GetPreimage_loop_step
      by (cbn [retries]; rewrite Hnf, Hhint; reflexivity).
    rewrite Hrun. cbn [with_store kvStore]. rewrite Hnew. reflexivity.
  - cbn [with_store kvStore]. rewrite Hnew. reflexivity.
Qed.

(** X10. Miss, then hit.  With a block-header hint recorded and the header
    not yet in the store, the first [GetPreimage] for the header's key
    prefetches once and returns the header's RLP; a second one returns it
    from the store without any prefetch. *)
Theorem GetPreimage_miss_then_hit
    (Hlaw : kv_lawful S) (p : @Prefetcher S) (hash : Hash) (header : BlockInfo env)
    (data : bytes) (err : error) :
  parseHint (lastHint p) = Ok (HintL1BlockHeader, hash) ->
  length hash = 32%nat ->
  InfoByHash (l1Fetcher env) hash = Ok header ->
  HeaderRLP env header = Ok data ->
  kvGet (kvStore p) (PreimageKey Keccak256KeyType hash) = Err err ->
  errors_Is_ErrNotFound err = true ->
  exists p1,
    GetPreimage env 1 p (PreimageKey Keccak256KeyType hash) = Some (p1, Ok data) /\
    GetPreimage env 0 p1 (PreimageKey Keccak256KeyType hash) = Some (p1, Ok data).
Proof. exact (GetPreimage_fetches_header Hlaw p hash header data err). Qed.

End GetPreimageFacts.

(** ** The handlers *)

Section DehashFacts.

Context {St : Type}.
Variable preimageSource : nat -> St -> Hash -> option (St * result bytes).
Variable spare : string -> bytes.

Lemma handleDehash_long fuel st path b rest :
  Hex.DecodeString (Strings.drop 8 path) = (b :: rest, None) ->
  (31 <= length rest)%nat ->
  handleDehash preimageSource spare fuel st path =
    dehash_answer preimageSource fuel st (Byte.x02 :: firstn 31 rest).
Proof.
  intros Hdec Hlen. unfold handleDehash, dehash_answer.
  change (String.length "/dehash/") with 8%nat. rewrite Hdec.
  assert (Hcap : (32 <=? length (Byte.x02 :: rest) + length (spare (Strings.drop 8 path)))%nat = true).
  { apply Nat.leb_le. cbn [length]. lia. }
  rewrite Hcap. rewrite firstn_app.
  replace (32 - length (Byte.x02 :: rest))%nat with 0%nat by (cbn [length]; lia).
  rewrite firstn_O, app_nil_r. cbn [firstn].
  destruct (preimageSource fuel st (Byte.x02 :: firstn 31 rest)) as [[st' [val|e]]|]; reflexivity.
Qed.

(** The three ways a [/dehash/] request can go. *)
Lemma handleDehash_cases (fuel : nat) (st : St) (path : string) :
  handleDehash preimageSource spare fuel st path = Some (st, Responded StatusBadRequest []) \/
  handleDehash preimageSource spare fuel st path = Some (st, Panicked) \/
  exists key,
    length key = 32%nat /\
    key_tag key = Some (tag Keccak256KeyType) /\
    handleDehash preimageSource spare fuel st path = dehash_answer preimageSource fuel st key.
Proof.
  unfold handleDehash, dehash_answer.
  destruct (Hex.DecodeString _) as [key [err|]]; [left; reflexivity|].
  destruct key as [|b rest]; [right; left; reflexivity|].
  destruct (32 <=? _)%nat eqn:Hcap; [|right; left; reflexivity].
  right; right. apply Nat.leb_le in Hcap.
  exists (firstn 32 ((Byte.x02 :: rest) ++ spare (Strings.drop (String.length "/dehash/") path))).
  split; [|split].
  - rewrite length_firstn, length_app. lia.
  - reflexivity.
  - destruct (preimageSource fuel st _) as [[st' [val|e]]|]; reflexivity.
Qed.

(** X14. Whatever the request, the [/dehash/] handler asks the preimage
    source only for keys of 32 bytes whose first byte is the Keccak256 tag:
    it answers 400, or panics, or answers as the lookup of such a key
    does. *)
Theorem handleDehash_asks_keccak_keys_only (fuel : nat) (st : St) (path : string) :
  handleDehash preimageSource spare fuel st path = Some (st, Responded StatusBadRequest []) \/
  handleDehash preimageSource spare fuel st path = Some (st, Panicked) \/
  exists key,
    length key = 32%nat /\
    key_tag key = Some (tag Keccak256KeyType) /\
    handleDehash preimageSource spare fuel st path = dehash_answer preimageSource fuel st key.
Proof. exact (handleDehash_cases fuel st path). Qed.

(** X15. The [/dehash/] handler looks at bytes 2 to 32 of the key only: two
    requests whose keys decode to at least 32 bytes each and agree on those
    bytes get the same answer, whatever their first bytes and whatever
    follows the 32nd byte. *)
Theorem handleDehash_ignores_tag_and_tail
    (fuel : nat) (st : St) (path1 path2 : string) (b1 b2 : byte) (rest1 rest2 : bytes) :
  Hex.DecodeString (Strings.drop 8 path1) = (b1 :: rest1, None) ->
  Hex.DecodeString (Strings.drop 8 path2) = (b2 :: rest2, None) ->
  (31 <= length rest1)%nat -> (31 <= length rest2)%nat ->
  firstn 31 rest1 = firstn 31 rest2 ->
  handleDehash preimageSource spare fuel st path1 =
  handleDehash preimageSource spare fuel st path2.
Proof.
  intros Hd1 Hd2 Hl1 Hl2 Heq.
  rewrite (handleDehash_long fuel st path1 b1 rest1 Hd1 Hl1).
  rewrite (handleDehash_long fuel st path2 b2 rest2 Hd2 Hl2).
  rewrite Heq. reflexivity.
Qed.

End DehashFacts.

Section ServerFacts.

Context {S : Type} `{KV S}.
Variable env : Env.
Variable spare : string -> bytes.

Lemma drop_hint_path hint : Strings.drop 6 ("/hint/" ++ hint)%string = hint.
Proof. apply (drop_append "/hint/"). Qed.

Lemma drop_dehash_path keyStr : Strings.drop 8 ("/dehash/" ++ keyStr)%string = keyStr.
Proof. apply (drop_append "/dehash/"). Qed.


(** X16. A hint, then its preimage.  In fetching mode on a store that keeps
    its contract, [GET /hint/] with a block-header hint is answered "ok",
    and a following [GET /dehash/] for a key that agrees with the block
    hash after its first byte is answered 200 with the header's RLP, after
    one prefetch; the same request again is answered from the store. *)
Theorem hint_then_dehash_serves_header
    (Hlaw : kv_lawful S) (p : @Prefetcher S) (hint keyStr : string) (hash : Hash)
    (header : BlockInfo env) (data : bytes) (b : byte) (err : error) :
  parseHint hint = Ok (HintL1BlockHeader, hash) ->
  length hash = 32%nat ->
  InfoByHash (l1Fetcher env) hash = Ok header ->
  HeaderRLP env header = Ok data ->
  Hex.DecodeString keyStr = (b :: skipn 1 hash, None) ->
  kvGet (kvStore p) (PreimageKey Keccak256KeyType hash) = Err err ->
  errors_Is_ErrNotFound err = true ->
  let '(p1, out1) := handleHint (server_hintHandler true) p ("/hint/" ++ hint)%string in
  out1 = Responded StatusOK (of_string "ok") /\
  exists p2,
    handleDehash (server_preimageSource env true) spare 1 p1 ("/dehash/" ++ keyStr)%string
      = Some (p2, Responded StatusOK data) /\
    handleDehash (server_preimageSource env true) spare 0 p2 ("/dehash/" ++ keyStr)%string
      = Some (p2, Responded StatusOK data).
Proof.
  intros Hparse Hlen Hinfo Hrlp Hdec Hget Hnf.
  rewrite handleHint_server, drop_hint_path.
  assert (Hm : mentions_hint_type hint = true).
  { apply mentions_hint_type_iff. exists HintL1BlockHeader. split; [left; reflexivity|].
    destruct (parseHint_inv _ _ _ Hparse) as [_ [[rest [-> _]] _]].
    exists ""%string, (" " ++ rest)%string. reflexivity. }
  rewrite Hm. split; [reflexivity|].
  set (p1 := {| lastHint := hint; kvStore := kvStore p |}).
  destruct (GetPreimage_fetches_header env Hlaw p1 hash header data err
              Hparse Hlen Hinfo Hrlp Hget Hnf) as [p2 [Hfirst Hsecond]].
  assert (Hkey : Byte.x02 :: firstn 31 (skipn 1 hash) = PreimageKey Keccak256KeyType hash).
  { unfold PreimageKey. cbn [tag]. f_equal. apply firstn_all2. rewrite length_skipn. lia. }
  assert (Hrest : (31 <= length (skipn 1 hash))%nat) by (rewrite length_skipn; lia).
  exists p2. split.
  - rewrite (handleDehash_long _ spare 1 p1 _ b (skipn 1 hash))
      by (rewrite ?drop_dehash_path; assumption).
    unfold dehash_answer. rewrite Hkey. cbn [server_preimageSource]. rewrite Hfirst. reflexivity.
  - rewrite (handleDehash_long _ spare 0 p2 _ b (skipn 1 hash))
      by (rewrite ?drop_dehash_path; assumption).
    unfold dehash_answer. rewrite Hkey. cbn [server_preimageSource]. rewrite Hsecond. reflexivity.
Qed.

End ServerFacts.

(** ** Configuration and start-up *)

Section MainFacts.

Variable MkdirAll : string -> option error.
Variable makePrefetcher : HostConfig.Config -> option error.

(** X18. What [Main] starts.  When [Main] gets as far as starting the HTTP
    server, the L1 head of the configuration is not the zero hash, the
    store is in memory exactly when no data directory is configured, the
    prefetcher is used exactly when an L1 URL is configured, and an
    in-memory store is never served offline. *)
Theorem Main_setup (cfg : HostConfig.Config) (setup : ServerSetup) :
  Main MkdirAll makePrefetcher cfg = Ok setup ->
  HostConfig.L1Head cfg <> HostConfig.zeroHash /\
  (setup_store setup = InMemory <-> HostConfig.DataDir cfg = "") /\
  (setup_fetching setup = true <-> HostConfig.L1URL cfg <> "") /\
  (setup_store setup = InMemory -> setup_fetching setup = true).
Proof.
  unfold Main, HostConfig.Check, PreimageServer, HostConfig.FetchingEnabled.
  intros Hmain.
  destruct (bool_decide (HostConfig.L1Head cfg = HostConfig.zeroHash)) eqn:Hhead;
    [discriminate|].
  apply bool_decide_eq_false in Hhead. split; [exact Hhead|].
  destruct (String.eqb (HostConfig.L1URL cfg) "") eqn:Hurl;
    destruct (String.eqb (HostConfig.DataDir cfg) "") eqn:Hdir;
    cbn [negb andb] in Hmain; try discriminate;
    (destruct (HostConfig.ServerMode cfg && negb (String.eqb (HostConfig.ExecCmd cfg) ""));
     [discriminate|]);
    try (destruct (MkdirAll (HostConfig.DataDir cfg)); [discriminate|]);
    try (destruct (makePrefetcher cfg); [discriminate|]);
    injection Hmain as <-; cbn [setup_store setup_fetching].
  - apply String.eqb_eq in Hurl. apply String.eqb_neq in Hdir.
    split; [split; intros; (discriminate || contradiction)|].
    split; [split; intros; (discriminate || contradiction)|]. discriminate.
  - apply String.eqb_neq in Hurl. apply String.eqb_eq in Hdir.
    split; [split; intros; (reflexivity || assumption)|].
    split; [split; intros; (reflexivity || assumption)|]. reflexivity.
  - apply String.eqb_neq in Hurl. apply String.eqb_neq in Hdir.
    split; [split; intros; (discriminate || contradiction)|].
    split; [split; intros; (reflexivity || assumption)|]. discriminate.
Qed.

(** X19. A configuration as [NewConfig] makes it never passes [Check]: it
    names neither an L1 URL nor a data directory, so [Check] answers
    [ErrInvalidL1Head] for the zero hash and [ErrDataDirRequired] for any
    other, and [Main] returns "invalid config". *)
Theorem NewConfig_fails_Check (RPCKindStandard : string) (l1Head : Hash) :
  let cfg := HostConfig.NewConfig RPCKindStandard l1Head in
  let err := if bool_decide (l1Head = HostConfig.zeroHash)
             then HostConfig.ErrInvalidL1Head else HostConfig.ErrDataDirRequired in
  HostConfig.Check cfg = Some err /\
  Main MkdirAll makePrefetcher cfg = Err (Errorf "invalid config: %w" (Some err)).
Proof.
  intros cfg err. unfold Main, HostConfig.Check, cfg, err, HostConfig.NewConfig.
  cbn [HostConfig.L1Head HostConfig.FetchingEnabled HostConfig.L1URL HostConfig.DataDir
       HostConfig.ServerMode HostConfig.ExecCmd].
  destruct (bool_decide (l1Head = HostConfig.zeroHash)); split; reflexivity.
Qed.

End MainFacts.

(** ** The DA client *)

Section PlasmaFacts.

Variable Keccak256 : bytes -> bytes.
Variable url_parses : string -> bool.
Variable Do : Plasma.Request -> result Plasma.Response.

Lemma SetInput_commitment_key (c : Plasma.DAClient) (img key : bytes) :
  Plasma.SetInput Keccak256 url_parses Do c img = Ok key -> Keccak256 img = key.
Proof.
  unfold Plasma.SetInput. intros Hset.
  destruct (length img =? 0)%nat; [discriminate|].
  destruct (Plasma.NewRequest _ _ _ _) as [req|e]; [|discriminate].
  destruct (Do _) as [resp|e]; [|discriminate].
  destruct (negb _); [discriminate|]. injection Hset as <-. reflexivity.
Qed.

(** X20. A verifying client returns only data that hashes to the key it
    was asked for. *)
Theorem GetInput_verified (c : Plasma.DAClient) (key input : bytes) :
  Plasma.verify c = true ->
  Plasma.GetInput Keccak256 url_parses Do c key = Ok input ->
  Keccak256 input = key.
Proof.
  unfold Plasma.GetInput. intros Hv Hget. rewrite Hv in Hget.
  destruct (Plasma.NewRequest _ _ _ _) as [req|e]; [|discriminate].
  destruct (Do req) as [resp|e]; [|discriminate].
  destruct (Plasma.StatusCode resp =? StatusNotFound)%nat; [discriminate|].
  destruct (Plasma.Body resp) as [body|e]; [|discriminate].
  destruct (bool_decide (Keccak256 body = key)) eqn:Heq; cbn [negb] in Hget; [|discriminate].
  injection Hget as <-. apply bool_decide_eq_true in Heq. exact Heq.
Qed.

(** X21. [SetInput] returns, when it returns a commitment, the hash of the
    input, after the server answered 200 to a POST of the input to the
    [/put/] URL of that hash; the input was not empty. *)
Theorem SetInput_commitment (c : Plasma.DAClient) (img key : bytes) :
  Plasma.SetInput Keccak256 url_parses Do c img = Ok key ->
  key = Keccak256 img /\ img <> [] /\
  exists req resp,
    Do req = Ok resp /\ Plasma.StatusCode resp = StatusOK /\
    Plasma.req_Method req = "POST" /\ Plasma.req_Body req = Some img /\
    Plasma.req_URL req =
      (Plasma.url c ++ "/put/0x" ++ HexEncoding.EncodeToString (Keccak256 img))%string.
Proof.
  unfold Plasma.SetInput, Plasma.NewRequest. intros Hset.
  destruct img as [|x img]; [discriminate|]. cbn [length Nat.eqb] in Hset.
  destruct (url_parses _); [|discriminate].
  match type of Hset with context [Do ?r] => set (req := r) in * end.
  destruct (Do req) as [resp|e] eqn:Hdo; [|discriminate].
  destruct (Plasma.StatusCode resp =? StatusOK)%nat eqn:Hst; cbn [negb] in Hset; [|discriminate].
  injection Hset as <-. apply Nat.eqb_eq in Hst.
  split; [reflexivity|]. split; [discriminate|].
  exists req, resp. repeat split; assumption || reflexivity.
Qed.

(** X22. Store, then fetch.  If [SetInput] returned a commitment for an
    input, and the server answers the GET for that commitment with the
    input (any status but 404), then [GetInput] returns the input, with or
    without verification: a verifying client never reports a mismatch for
    data stored under the commitment [SetInput] computed. *)
Theorem SetInput_then_GetInput (c : Plasma.DAClient) (img key : bytes) (status : nat) :
  Plasma.SetInput Keccak256 url_parses Do c img = Ok key ->
  url_parses (Plasma.url c ++ "/get/0x" ++ HexEncoding.EncodeToString key)%string = true ->
  Do {| Plasma.req_Method := "GET";
        Plasma.req_URL := (Plasma.url c ++ "/get/0x" ++ HexEncoding.EncodeToString key)%string;
        Plasma.req_Body := None;
        Plasma.req_ContentType := None |}
    = Ok {| Plasma.StatusCode := status; Plasma.Body := Ok img |} ->
  status <> StatusNotFound ->
  Plasma.GetInput Keccak256 url_parses Do c key = Ok img.
Proof.
  intros Hset Hurl Hdo Hst.
  apply SetInput_commitment_key in Hset.
  unfold Plasma.GetInput, Plasma.NewRequest. rewrite Hurl, Hdo.
  cbn [Plasma.StatusCode Plasma.Body].
  apply Nat.eqb_neq in Hst. rewrite Hst.
  destruct (Plasma.verify c); [|reflexivity].
  rewrite Hset. rewrite bool_decide_eq_true_2 by reflexivity. reflexivity.
Qed.

End PlasmaFacts.

(** ** The further properties at work *)

Lemma prefetch_error_leaves_store_witness :
  prefetch Mock.env "unknown 0xdead" (∅ : MemKV) = (∅, Err (Errorf "unknown hint type: %v" None)) /\
  (∅ : MemKV) = ∅.
Proof.
  assert (Hrun : prefetch Mock.env "unknown 0xdead" (∅ : MemKV)
                 = (∅, Err (Errorf "unknown hint type: %v" None))) by reflexivity.
  split; [exact Hrun|].
  exact (prefetch_error_leaves_store Mock.env MemKV_lawful _ _ _ _ Hrun).
Defined.

Lemma prefetch_ok_hint_form_witness :
  exists hintType hintBytes,
    parseHint Mock.headerHint = Ok (hintType, hintBytes) /\
    ((In hintType [HintL1BlockHeader; HintL1Transactions; HintL1Receipts] /\
      length hintBytes = 32%nat) \/
     (hintType = HintL1Blob /\ length hintBytes = 48%nat) \/
     hintType = HintL1KZGPointEvaluation).
Proof.
  exact (prefetch_ok_hint_form Mock.env Mock.headerHint (∅ : MemKV) _
           (Mock_prefetch_header ∅)).
Defined.

Lemma prefetch_touches_its_tags_only_witness :
  kvGet (prefetch Mock.env Mock.headerHint (∅ : MemKV)).1 LocalSource.l1HeadKey
    = kvGet (∅ : MemKV) LocalSource.l1HeadKey.
Proof.
  refine (proj2 (prefetch_touches_its_tags_only Mock.env MemKV_lawful Mock.headerHint
                   (∅ : MemKV) _ _ LocalSource.l1HeadKey _) eq_refl).
  apply surjective_pairing.
Defined.

Lemma prefetch_keeps_keys_witness :
  let s : MemKV := {[ Mock.absentKey := [Byte.x07] ]} in
  kvGet s Mock.absentKey = Ok [Byte.x07] /\
  exists v', kvGet (prefetch Mock.env Mock.headerHint s).1 Mock.absentKey = Ok v'.
Proof.
  intros s.
  assert (Hget : kvGet s Mock.absentKey = Ok [Byte.x07]).
  { unfold s. cbn [kvGet MemKV_KV]. rewrite lookup_singleton_eq. reflexivity. }
  split; [exact Hget|].
  refine (prefetch_keeps_keys Mock.env MemKV_lawful Mock.headerHint s _ _ _ _ _ Hget).
  apply surjective_pairing.
Defined.

Lemma prefetch_block_header_witness :
  exists s' : MemKV,
    prefetch Mock.env Mock.headerHint ∅ = (s', Ok tt) /\
    kvGet s' (PreimageKey Keccak256KeyType (repeat Byte.x00 32)) = Ok Mock.header.
Proof.
  destruct (prefetch_block_header Mock.env MemKV_lawful Mock.headerHint (repeat Byte.x00 32)
              Mock.header Mock.header (∅ : MemKV) eq_refl eq_refl eq_refl eq_refl)
    as [s' [Hrun [Hget _]]].
  exists s'. split; assumption.
Defined.

Lemma prefetch_transactions_witness :
  exists s' : MemKV,
    prefetch MockBlock.env MockBlock.txsHint ∅ = (s', Ok tt) /\
    exists node',
      In node' [MockBlock.tx1; MockBlock.tx2] /\
      kvGet s' (PreimageKey Keccak256KeyType (Mock.lastBytes MockBlock.tx2)) = Ok node'.
Proof.
  destruct (prefetch_transactions MockBlock.env MemKV_lawful MockBlock.txsHint
              (repeat Byte.x00 32) Mock.header [MockBlock.tx1; MockBlock.tx2]
              [MockBlock.tx1; MockBlock.tx2] (∅ : MemKV) eq_refl eq_refl eq_refl eq_refl)
    as [s' [Hrun Hnodes]].
  exists s'. split; [exact Hrun|].
  destruct (Hnodes MockBlock.tx2) as [node' [Hin [_ Hget]]]; [right; left; reflexivity|].
  exists node'. split; assumption.
Defined.

Lemma prefetch_receipts_witness :
  exists s' : MemKV,
    prefetch MockBlock.env MockBlock.receiptsHint ∅ = (s', Ok tt) /\
    exists node',
      In node' [MockBlock.tx2; MockBlock.tx1] /\
      kvGet s' (PreimageKey Keccak256KeyType (Mock.lastBytes MockBlock.tx1)) = Ok node'.
Proof.
  destruct (prefetch_receipts MockBlock.env MemKV_lawful MockBlock.receiptsHint
              (repeat Byte.x00 32) Mock.header [MockBlock.tx2; MockBlock.tx1]
              [MockBlock.tx2; MockBlock.tx1] (∅ : MemKV) eq_refl eq_refl eq_refl eq_refl)
    as [s' [Hrun Hnodes]].
  exists s'. split; [exact Hrun|].
  destruct (Hnodes MockBlock.tx1) as [node' [Hin [_ Hget]]]; [right; left; reflexivity|].
  exists node'. split; assumption.
Defined.

Lemma GetPreimage_miss_then_hit_witness :
  exists p1,
    GetPreimage Mock.env 1 (Mock.fresh Mock.headerHint)
      (PreimageKey Keccak256KeyType (repeat Byte.x00 32)) = Some (p1, Ok Mock.header) /\
    GetPreimage Mock.env 0 p1
      (PreimageKey Keccak256KeyType (repeat Byte.x00 32)) = Some (p1, Ok Mock.header).
Proof.
  apply (GetPreimage_miss_then_hit Mock.env MemKV_lawful (Mock.fresh Mock.headerHint)
           (repeat Byte.x00 32) Mock.header Mock.header ErrNotFound);
    reflexivity.
Defined.

Lemma GetPreimage_keeps_hint_witness :
  GetPreimage Mock.env 1 (Mock.fresh "unknown 0xdead") Mock.absentKey
    = Some (Mock.fresh "unknown 0xdead",
            Err (Errorf "prefetch failed: %w" (Some (Errorf "unknown hint type: %v" None)))) /\
  lastHint (Mock.fresh "unknown 0xdead") = "unknown 0xdead".
Proof.
  assert (Hrun : GetPreimage Mock.env 1 (Mock.fresh "unknown 0xdead") Mock.absentKey
            = Some (Mock.fresh "unknown 0xdead",
                    Err (Errorf "prefetch failed: %w" (Some (Errorf "unknown hint type: %v" None))))).
  { unfold GetPreimage, Mock.fresh. cbn [kvStore kvGet MemKV_KV]. rewrite lookup_empty.
    reflexivity. }
  split; [exact Hrun|].
  exact (GetPreimage_keeps_hint Mock.env 1 _ _ _ _ Hrun).
Defined.

Lemma GetPreimage_error_shape_witness :
  (exists e', Errorf "prefetch failed: %w" (Some (Errorf "unknown hint type: %v" None))
              = Errorf "prefetch failed: %w" (Some e')) \/
  errors_Is_ErrNotFound
    (Errorf "prefetch failed: %w" (Some (Errorf "unknown hint type: %v" None))) = false.
Proof.
  refine (GetPreimage_error_shape Mock.env 1 (Mock.fresh "unknown 0xdead")
            (Mock.fresh "unknown 0xdead") Mock.absentKey _ _ _).
  - discriminate.
  - unfold GetPreimage, Mock.fresh. cbn [kvStore kvGet MemKV_KV]. rewrite lookup_empty.
    reflexivity.
Defined.

Lemma handleDehash_ignores_tag_and_tail_witness :
  handleDehash (St := unit) (fun _ st key => Some (st, Ok key)) (fun _ => []) 0 tt
    "/dehash/ff01000000000000000000000000000000000000000000000000000000000000" =
  handleDehash (St := unit) (fun _ st key => Some (st, Ok key)) (fun _ => []) 0 tt
    "/dehash/0001000000000000000000000000000000000000000000000000000000000000abcd".
Proof.
  apply (handleDehash_ignores_tag_and_tail _ _ 0 tt _ _ Byte.xff Byte.x00
           (Byte.x01 :: repeat Byte.x00 30)
           (Byte.x01 :: repeat Byte.x00 30 ++ [Byte.xab; Byte.xcd]));
    try reflexivity; simpl; lia.
Defined.

Lemma hint_then_dehash_serves_header_witness :
  exists p2,
    handleDehash (server_preimageSource Mock.env true) (fun _ => []) 1
      (Mock.fresh Mock.headerHint)
      "/dehash/0200000000000000000000000000000000000000000000000000000000000000"
      = Some (p2, Responded StatusOK Mock.header).
Proof.
  pose proof (hint_then_dehash_serves_header Mock.env (fun _ => []) MemKV_lawful
                (Mock.fresh "") Mock.headerHint
                "0200000000000000000000000000000000000000000000000000000000000000"
                (repeat Byte.x00 32) Mock.header Mock.header Byte.x02 ErrNotFound
                eq_refl eq_refl eq_refl eq_refl eq_refl) as Hserve.
  assert (Hmiss : kvGet (kvStore (Mock.fresh ""))
                    (PreimageKey Keccak256KeyType (repeat Byte.x00 32)) = Err ErrNotFound).
  { unfold Mock.fresh. cbn [kvStore kvGet MemKV_KV]. rewrite lookup_empty. reflexivity. }
  specialize (Hserve Hmiss eq_refl).
  rewrite handleHint_server in Hserve.
  change (mentions_hint_type (Strings.drop 6 ("/hint/" ++ Mock.headerHint)%string)) with true in Hserve.
  destruct Hserve as [_ [p2 [Hfirst _]]]. exists p2. exact Hfirst.
Defined.

Lemma Main_setup_witness :
  Main (fun _ => None) (fun _ => None) MockBlock.fetchingConfig
    = Ok {| setup_store := InMemory; setup_fetching := true |} /\
  HostConfig.L1Head MockBlock.fetchingConfig <> HostConfig.zeroHash.
Proof.
  assert (Hmain : Main (fun _ => None) (fun _ => None) MockBlock.fetchingConfig
                  = Ok {| setup_store := InMemory; setup_fetching := true |}) by reflexivity.
  split; [exact Hmain|]. exact (proj1 (Main_setup _ _ _ _ Hmain)).
Defined.

Lemma GetInput_verified_witness :
  Plasma.GetInput (fun b => b) (fun _ => true) MockBlock.daServer
    MockBlock.daClient MockBlock.daInput = Ok MockBlock.daInput /\
  (fun b : bytes => b) MockBlock.daInput = MockBlock.daInput.
Proof.
  assert (Hget : Plasma.GetInput (fun b => b) (fun _ => true) MockBlock.daServer
                   MockBlock.daClient MockBlock.daInput = Ok MockBlock.daInput) by reflexivity.
  split; [exact Hget|].
  exact (GetInput_verified (fun b => b) (fun _ => true) MockBlock.daServer
           MockBlock.daClient _ _ eq_refl Hget).
Defined.

Lemma SetInput_commitment_witness :
  Plasma.SetInput (fun b => b) (fun _ => true) MockBlock.daServer
    MockBlock.daClient MockBlock.daInput = Ok MockBlock.daInput /\
  MockBlock.daInput <> [].
Proof.
  assert (Hset : Plasma.SetInput (fun b => b) (fun _ => true) MockBlock.daServer
                   MockBlock.daClient MockBlock.daInput = Ok MockBlock.daInput) by reflexivity.
  split; [exact Hset|].
  exact (proj1 (proj2 (SetInput_commitment (fun b => b) (fun _ => true) MockBlock.daServer
                         MockBlock.daClient _ _ Hset))).
Defined.

Lemma SetInput_then_GetInput_witness :
  Plasma.GetInput (fun b => b) (fun _ => true) MockBlock.daServer
    MockBlock.daClient MockBlock.daInput = Ok MockBlock.daInput.
Proof.
  apply (SetInput_then_GetInput (fun b => b) (fun _ => true) MockBlock.daServer
           MockBlock.daClient MockBlock.daInput MockBlock.daInput StatusOK);
    (reflexivity || discriminate).
Defined.

(** ** The wire form of a blob hint *)

Section BlobHintFacts.

Context {S : Type} `{KV S}.
Variable env : Env.

Lemma blob_payload_fields (V : bytes) (index timestamp : N) :
  length V = 32%nat -> index < 2 ^ 64 -> timestamp < 2 ^ 64 ->
  let payload := V ++ u64_be index ++ u64_be timestamp in
  length payload = 48%nat /\
  slice 0 32 payload = V /\
  Uint64 (slice 32 40 payload) = index /\
  Uint64 (slice 40 48 payload) = timestamp.
Proof.
  intros HV Hi Ht payload. unfold payload, slice.
  split; [rewrite !length_app, HV; reflexivity|]. split; [|split].
  - rewrite skipn_O. change (32 - 0)%nat with 32%nat.
    rewrite firstn_app, HV, Nat.sub_diag, firstn_O, app_nil_r.
    apply firstn_all2. lia.
  - rewrite skipn_app, HV, Nat.sub_diag. rewrite (skipn_all2 V) by lia.
    rewrite skipn_O, app_nil_l. change (40 - 32)%nat with 8%nat.
    rewrite firstn_app, length_u64_be, Nat.sub_diag, firstn_O, app_nil_r.
    rewrite (firstn_all2 (u64_be index)) by (rewrite length_u64_be; lia).
    apply Uint64_u64_be. exact Hi.
  - rewrite skipn_app, HV. rewrite (skipn_all2 V) by lia.
    change (40 - 32)%nat with 8%nat. rewrite app_nil_l.
    rewrite skipn_app, length_u64_be, Nat.sub_diag.
    rewrite (skipn_all2 (u64_be index)) by (rewrite length_u64_be; lia).
    rewrite skipn_O, app_nil_l. change (48 - 40)%nat with 8%nat.
    rewrite (firstn_all2 (u64_be timestamp)) by (rewrite length_u64_be; lia).
    apply Uint64_u64_be. exact Ht.
Qed.

(** X13. The blob hint in wire form.  For a hint made of the type
    [l1-blob] and the payload "versioned hash, index, timestamp" (32 bytes
    and two big-endian 64-bit integers, in hexadecimal), [prefetch] asks the
    blob source for exactly that timestamp, index and hash; it returns the
    source's error wrapped, writes nothing unless exactly one sidecar comes
    back, and stores the commitment and the field elements of that one. *)
Theorem prefetch_blob_hint_wire_form (V : bytes) (index timestamp : N) (s : S) :
  length V = 32%nat -> index < 2 ^ 64 -> timestamp < 2 ^ 64 ->
  prefetch env
    (HintL1Blob ++ " " ++ "0x" ++
     HexEncoding.EncodeToString (V ++ u64_be index ++ u64_be timestamp))%string s =
  match GetBlobSidecars (l1BlobFetcher env) timestamp
          [{| ibh_Index := index; ibh_Hash := V |}] with
  | Err err => (s, Err (Errorf "failed to fetch blob sidecars for %s %d: %w" (Some err)))
  | Ok [sidecar] =>
      bind (Put (PreimageKey Sha256KeyType V) (KZGCommitment sidecar))
        (fun _ => storeFieldElements env BlobTxFieldElementsPerBlob 0
                    (copy_at 0 48 (make 80) (KZGCommitment sidecar)) sidecar) s
  | Ok _ => (s, Err (Errorf "failed to fetch blob sidecars for %s %d: %w" None))
  end.
Proof.
  intros HV Hi Ht.
  destruct (blob_payload_fields V index timestamp HV Hi Ht) as [Hlen [Hhash [Hidx Hts]]].
  unfold prefetch. rewrite parseHint_append by reflexivity.
  change (String.eqb HintL1Blob HintL1BlockHeader) with false.
  change (String.eqb HintL1Blob HintL1Transactions) with false.
  change (String.eqb HintL1Blob HintL1Receipts) with false.
  change (String.eqb HintL1Blob HintL1Blob) with true.
  cbv iota. rewrite Hlen. change (negb (48 =? 48)%nat) with false. cbv iota.
  rewrite Hhash, Hidx, Hts.
  destruct (GetBlobSidecars _ _ _) as [[|sidecar [|sidecar' rest]]|err]; reflexivity.
Qed.

End BlobHintFacts.

Lemma prefetch_blob_hint_wire_form_witness :
  prefetch Mock.envNoSidecar
    (HintL1Blob ++ " " ++ "0x" ++
     HexEncoding.EncodeToString ((Byte.x01 :: repeat Byte.x00 31) ++ u64_be 3 ++ u64_be 1700000000))%string
    (∅ : MemKV)
  = (∅, Err (Errorf "failed to fetch blob sidecars for %s %d: %w" None)).
Proof.
  apply (prefetch_blob_hint_wire_form Mock.envNoSidecar (Byte.x01 :: repeat Byte.x00 31)
           3 1700000000 (∅ : MemKV)); reflexivity.
Defined.
